(** * tsuba RDG persistence: store, commit and load paths

    A shallow embedding of [libtsuba/src/RDG.cpp] (the resilient distributed
    graph: incremental column persistence, the commit protocol and partition
    load) and of [PropertyGraph::Make] from the typed graph view, together
    with the properties the design document states about them.

    Conventions.
    - A [galois::Result<T>] is a [Result T]: [Success], [Failure] with an
      error code, and a third outcome [Fatal] for an execution that returns
      no result at all (a failed [assert], [.error()] taken on a result that
      holds a value, an access past the end of a vector).
    - Stateful code is written in the monad [M S], which threads a state of
      type [S] and keeps the state reached so far when a step fails: C++
      does not roll back the assignments made before an early [return].
    - Collaborators that live outside the modelled files (Arrow and Parquet,
      [galois::Uri], the blob store, the naming service, the communication
      backend) are fields of the classes [Platform] and [Services].
    - [TSUBA_PTP] fault-injection points and logging macros do nothing in
      normal operation and are left out. *)

From Stdlib Require Import ZArith NArith Lia Ascii String.
From stdpp Require Import base list strings pretty.

Open Scope string_scope.
Open Scope list_scope.

(** ** Results and the state-and-error monad *)

(** Error codes of [tsuba/Errors.h] that RDG.cpp names itself, and the codes
    that collaborators hand back. *)
Inductive ErrorCode : Type :=
| InvalidArgument
| ArrowError
| MpiError
| OtherError (code : nat).

#[global] Instance ErrorCode_eq_dec : EqDecision ErrorCode.
Proof. solve_decision. Defined.

Inductive Result (A : Type) : Type :=
| Success (a : A)
| Failure (e : ErrorCode)
| Fatal.

Arguments Success {A} a.
Arguments Failure {A} e.
Arguments Fatal {A}.

(** [if (!res)] *)
Definition is_ok {A} (r : Result A) : bool :=
  match r with Success _ => true | _ => false end.

(** [return res.error();] where [res] has another value type.  When [res]
    holds a value there is no error to hand over. *)
Definition error {A B} (r : Result A) : Result B :=
  match r with
  | Failure e => Failure e
  | Success _ | Fatal => Fatal
  end.

Definition M (S A : Type) : Type := S -> Result A * S.

Definition ret {S A} (a : A) : M S A := fun s => (Success a, s).
Definition fail {S A} (e : ErrorCode) : M S A := fun s => (Failure e, s).
Definition fatal {S A} : M S A := fun s => (Fatal, s).
Definition bind {S A B} (m : M S A) (k : A -> M S B) : M S B :=
  fun s =>
    match m s with
    | (Success a, s') => k a s'
    | (Failure e, s') => (Failure e, s')
    | (Fatal, s') => (Fatal, s')
    end.
Definition get {S} : M S S := fun s => (Success s, s).
Definition gets {S A} (f : S -> A) : M S A := fun s => (Success (f s), s).
Definition modify {S} (f : S -> S) : M S unit := fun s => (Success tt, f s).
(** An outcome decided outside the program. *)
Definition ask {S A} (oracle : S -> Result A) : M S A := fun s => (oracle s, s).

Notation "'let*' x ':=' m 'in' k" := (bind m (fun x => k))
  (at level 10, x name, m at level 100, k at level 200).

(** Run a computation over one component of a pair of states. *)
Definition on_snd {S T A} (m : M T A) : M (S * T) A :=
  fun st => let '(r, t') := m (snd st) in (r, (fst st, t')).
Definition on_fst {S T A} (m : M S A) : M (S * T) A :=
  fun st => let '(r, s') := m (fst st) in (r, (s', snd st)).

(** ** Data model *)

(** [tsuba::PropStorageInfo] *)
Record PropStorageInfo : Type := mkPropStorageInfo {
  name : string;
  path : string;
  persist : bool
}.

#[global] Instance PropStorageInfo_eq_dec : EqDecision PropStorageInfo.
Proof. solve_decision. Defined.

(** [v.path = p] *)
Definition set_path (v : PropStorageInfo) (p : string) : PropStorageInfo :=
  {| name := name v; path := p; persist := persist v |}.

(** [std::string::empty] *)
Definition empty (s : string) : bool := String.eqb s "".

(** The test of both loops of [WriteTable]: [v.persist && v.path.empty()]. *)
Definition dirty (v : PropStorageInfo) : bool := persist v && empty (path v).

(** Pure collaborators: Arrow columns, Parquet serialisation and
    [galois::Uri].  [Uri_RandFile] takes the state of the random generator
    as its last argument. *)
Inductive ParquetResult (Bytes : Type) : Type :=
| ParquetOk (buffer : Bytes)
| ParquetNotOk
| ParquetThrows.

Arguments ParquetOk {Bytes} buffer.
Arguments ParquetNotOk {Bytes}.
Arguments ParquetThrows {Bytes}.

Class Platform : Type := {
  ChunkedArray : Type;
  Bytes : Type;
  Uri : Type;
  Uri_string : Uri -> string;
  Uri_Join : Uri -> string -> Uri;
  Uri_RandFile : Uri -> string -> nat -> Uri;
  Uri_BaseName : Uri -> string;
  Uri_eqb : Uri -> Uri -> bool;
  no_bytes : Bytes;
  parquet_WriteTable : string -> ChunkedArray -> ParquetResult Bytes
}.

Section Model.
Context `{P : Platform}.

(** An [arrow::Table]: its columns in order, each with its field name. *)
Definition Table : Type := list (string * ChunkedArray).

Definition num_columns (t : Table) : nat := length t.

(** [tsuba::RDGLineage], the command lines that produced a version. *)
Definition RDGLineage : Type := list string.

(** [tsuba::RDGMeta] *)
Record RDGMeta : Type := mkRDGMeta {
  dir : Uri;
  version : N;
  num_hosts : N;
  policy_id : N;
  transposed : bool;
  lineage : RDGLineage
}.

(** Modelled from the spec: [RDGMeta::NextVersion] is declared in RDGMeta.h,
    which is not among the sources.  It derives version N+1 from version N
    plus the new host count, policy and lineage; the version is a 64-bit
    unsigned integer. *)
Definition NextVersion (m : RDGMeta) (hosts policy : N) (transp : bool)
    (lin : RDGLineage) : RDGMeta :=
  {| dir := dir m;
     version := ((version m + 1) mod 2 ^ 64)%N;
     num_hosts := hosts;
     policy_id := policy;
     transposed := transp;
     lineage := lin |}.

(** A write queued in a [tsuba::WriteGroup] by [StartStore]. *)
Record PendingWrite : Type := mkPendingWrite {
  pw_path : string;
  pw_data : Bytes
}.

(** What the process does to the world outside it, in order. *)
Inductive Event : Type :=
| EvFinish (writes : list PendingWrite)
| EvBarrier
| EvNSUpdate (d : Uri) (old_version : N) (new_meta : RDGMeta)
| EvFileStore (file : string) (contents : string)
| EvReadHeader (file : Uri)
| EvLoadTable (column : string) (file : Uri)
| EvBindTopology (file : string).

(** The state outside the RDG object: the handle's cached metadata, the
    write group in use, the random generator behind [RandFile] and the
    events so far. *)
Record World : Type := mkWorld {
  rdg_meta : RDGMeta;
  desc : list PendingWrite;
  seed : nat;
  log : list Event
}.

Definition set_rdg_meta (m : RDGMeta) (w : World) : World :=
  {| rdg_meta := m; desc := desc w; seed := seed w; log := log w |}.
Definition set_desc (d : list PendingWrite) (w : World) : World :=
  {| rdg_meta := rdg_meta w; desc := d; seed := seed w; log := log w |}.
Definition set_seed (n : nat) (w : World) : World :=
  {| rdg_meta := rdg_meta w; desc := desc w; seed := n; log := log w |}.
Definition emit (e : Event) (w : World) : World :=
  {| rdg_meta := rdg_meta w; desc := desc w; seed := seed w;
     log := log w ++ [e] |}.

(** [desc->StartStore(...)]: queue a write and return at once. *)
Definition StartStore (file : string) (data : Bytes) : M World unit :=
  modify (fun w => set_desc (desc w ++ [mkPendingWrite file data]) w).

(** [dir.RandFile(name)]: draw a fresh file name. *)
Definition RandFile (d : Uri) (prefix : string) : M World Uri :=
  fun w => (Success (Uri_RandFile d prefix (seed w)), set_seed (S (seed w)) w).

(** [tsuba::PartitionMetadata], the two fields RDG.cpp reads. *)
Record PartitionMetadata : Type := mkPartitionMetadata {
  policy_id_ : N;
  transposed_ : bool
}.

(** [tsuba::RDGPartHeader] *)
Record RDGPartHeader : Type := mkRDGPartHeader {
  node_prop_info_list : list PropStorageInfo;
  edge_prop_info_list : list PropStorageInfo;
  part_prop_info_list : list PropStorageInfo;
  topology_path : string;
  metadata : PartitionMetadata
}.

Definition set_node_prop_info_list (l : list PropStorageInfo)
    (h : RDGPartHeader) : RDGPartHeader :=
  {| node_prop_info_list := l;
     edge_prop_info_list := edge_prop_info_list h;
     part_prop_info_list := part_prop_info_list h;
     topology_path := topology_path h;
     metadata := metadata h |}.
Definition set_edge_prop_info_list (l : list PropStorageInfo)
    (h : RDGPartHeader) : RDGPartHeader :=
  {| node_prop_info_list := node_prop_info_list h;
     edge_prop_info_list := l;
     part_prop_info_list := part_prop_info_list h;
     topology_path := topology_path h;
     metadata := metadata h |}.
Definition set_part_properties (l : list PropStorageInfo)
    (h : RDGPartHeader) : RDGPartHeader :=
  {| node_prop_info_list := node_prop_info_list h;
     edge_prop_info_list := edge_prop_info_list h;
     part_prop_info_list := l;
     topology_path := topology_path h;
     metadata := metadata h |}.
Definition set_topology_path (p : string) (h : RDGPartHeader) : RDGPartHeader :=
  {| node_prop_info_list := node_prop_info_list h;
     edge_prop_info_list := edge_prop_info_list h;
     part_prop_info_list := part_prop_info_list h;
     topology_path := p;
     metadata := metadata h |}.

(** [tsuba::RDGCore]; an unbound [FileView] holds [no_bytes]. *)
Record RDGCore : Type := mkRDGCore {
  node_table : Table;
  edge_table : Table;
  part_header : RDGPartHeader;
  topology_file_storage : Bytes
}.

Definition set_part_header (h : RDGPartHeader) (c : RDGCore) : RDGCore :=
  {| node_table := node_table c; edge_table := edge_table c;
     part_header := h; topology_file_storage := topology_file_storage c |}.
Definition set_node_table (t : Table) (c : RDGCore) : RDGCore :=
  {| node_table := t; edge_table := edge_table c;
     part_header := part_header c;
     topology_file_storage := topology_file_storage c |}.
Definition set_edge_table (t : Table) (c : RDGCore) : RDGCore :=
  {| node_table := node_table c; edge_table := t;
     part_header := part_header c;
     topology_file_storage := topology_file_storage c |}.
Definition set_topology_file_storage (b : Bytes) (c : RDGCore) : RDGCore :=
  {| node_table := node_table c; edge_table := edge_table c;
     part_header := part_header c; topology_file_storage := b |}.

(** [tsuba::RDG]; [rdg_dir_] is [None] until a load binds the object to a
    directory. *)
Record RDG : Type := mkRDG {
  core_ : RDGCore;
  mirror_nodes_ : list ChunkedArray;
  master_nodes_ : list ChunkedArray;
  local_to_global_vector_ : option ChunkedArray;
  lineage_ : RDGLineage;
  rdg_dir_ : option Uri
}.

Definition set_core (c : RDGCore) (r : RDG) : RDG :=
  {| core_ := c; mirror_nodes_ := mirror_nodes_ r;
     master_nodes_ := master_nodes_ r;
     local_to_global_vector_ := local_to_global_vector_ r;
     lineage_ := lineage_ r; rdg_dir_ := rdg_dir_ r |}.
Definition set_lineage (l : RDGLineage) (r : RDG) : RDG :=
  {| core_ := core_ r; mirror_nodes_ := mirror_nodes_ r;
     master_nodes_ := master_nodes_ r;
     local_to_global_vector_ := local_to_global_vector_ r;
     lineage_ := l; rdg_dir_ := rdg_dir_ r |}.
Definition set_rdg_dir (d : Uri) (r : RDG) : RDG :=
  {| core_ := core_ r; mirror_nodes_ := mirror_nodes_ r;
     master_nodes_ := master_nodes_ r;
     local_to_global_vector_ := local_to_global_vector_ r;
     lineage_ := lineage_ r; rdg_dir_ := Some d |}.

(** [core_->part_header().set_...(...)] *)
Definition update_header (f : RDGPartHeader -> RDGPartHeader) (r : RDG) : RDG :=
  set_core (set_part_header (f (part_header (core_ r))) (core_ r)) r.

(** Collaborators whose outcome is decided outside the process, or whose
    code is in files other than RDG.cpp.  An outcome may depend on the whole
    [World], so two calls with the same arguments may differ.  [NDEBUG]
    says whether the build defines the macro of that name, which compiles
    every [assert] out. *)
Class Services : Type := {
  Comm_Num : N;
  Comm_ID : N;
  FileFrame_Init : World -> Result unit;
  WriteGroup_Make : World -> Result unit;
  WriteGroup_Finish : World -> Result unit;
  NS_Update : Uri -> N -> RDGMeta -> World -> Result unit;
  FileStore : string -> string -> World -> Result unit;
  OneHostOnly : M World unit -> M World unit;
  RDGMeta_ToJsonString : RDGMeta -> string;
  RDGMeta_FileName : Uri -> N -> Uri;
  RDGMeta_IsEmptyRDG : RDGMeta -> bool;
  RDGMeta_PartitionFileName : RDGMeta -> N -> Uri;
  RDGHandle_AllowsRead : World -> bool;
  RDGHandle_AllowsWrite : World -> bool;
  RDGPartHeader_Make : Uri -> World -> Result RDGPartHeader;
  RDGPartHeader_serialize : RDGPartHeader -> World -> Result (string * Bytes);
  RDGPartHeader_PrunePropsTo :
    option (list string) -> option (list string) ->
    RDGPartHeader -> Result RDGPartHeader;
  RDGPartHeader_UnbindFromStorage : RDGPartHeader -> RDGPartHeader;
  RDGCore_AddProperties : Table -> Table -> Result Table;
  LoadTable : string -> Uri -> World -> Result Table;
  FileView_Bind : string -> World -> Result Bytes;
  PropStorageInfo_default_persist : bool;
  NDEBUG : bool
}.

Context `{Sv : Services}.

(** ** Column storage *)

(** The body of a [try] block: it returns, or an exception leaves it. *)
Inductive Thrown (A : Type) : Type :=
| Returns (r : A)
| Throws.

Arguments Returns {A} r.
Arguments Throws {A}.

Definition DoStoreArrowArrayAtName (array : ChunkedArray) (d : Uri)
    (column_name : string) (w : World) : Thrown (Result string) * World :=
  let next_path := Uri_RandFile d column_name (seed w) in
  let w1 := set_seed (S (seed w)) w in
  match FileFrame_Init w1 with
  | Failure e => (Returns (Failure e), w1)
  | Fatal => (Returns Fatal, w1)
  | Success _ =>
      match parquet_WriteTable column_name array with
      | ParquetThrows => (Throws, w1)
      | ParquetNotOk => (Returns (Failure ArrowError), w1)
      | ParquetOk buffer =>
          (Returns (Success (Uri_BaseName next_path)),
           set_desc (desc w1 ++ [mkPendingWrite (Uri_string next_path) buffer])
             w1)
      end
  end.

Definition StoreArrowArrayAtName (array : ChunkedArray) (d : Uri)
    (column_name : string) : M World string :=
  fun w =>
    match DoStoreArrowArrayAtName array d column_name w with
    | (Returns r, w') => (r, w')
    | (Throws, w') => (Failure ArrowError, w')
    end.

Definition MirrorPropName (i : nat) : string := "mirror_nodes" +:+ "_" +:+ pretty i.
Definition MasterPropName (i : nat) : string := "master_nodes" +:+ "_" +:+ pretty i.

(** The name a column is stored under:
    [properties[i].name.empty() ? schema->field(i)->name() : properties[i].name] *)
Definition store_name (field_name : string) (v : PropStorageInfo) : string :=
  if empty (name v) then field_name else name v.

(** First loop of [WriteTable], from index [i] on; the result is
    [next_paths].  [table.column(i)] past the last column has no defined
    result. *)
Fixpoint WriteTable_store (table : Table) (d : Uri) (i : nat)
    (properties : list PropStorageInfo) : M World (list string) :=
  match properties with
  | [] => ret []
  | v :: rest =>
      if negb (persist v) || negb (empty (path v)) then
        WriteTable_store table d (S i) rest
      else
        match table !! i with
        | None => fatal
        | Some (field_name, column) =>
            let* stored :=
              StoreArrowArrayAtName column d (store_name field_name v) in
            let* next_paths := WriteTable_store table d (S i) rest in
            ret (stored :: next_paths)
        end
  end.

(** Second loop of [WriteTable]: [v.path = *it++] for every dirty entry.
    [None] stands for an iterator advanced past the end of [next_paths]. *)
Fixpoint assign_paths (properties : list PropStorageInfo)
    (next_paths : list string) : option (list PropStorageInfo) :=
  match properties with
  | [] => Some []
  | v :: rest =>
      if persist v && empty (path v) then
        match next_paths with
        | [] => None
        | p :: it => cons (set_path v p) <$> assign_paths rest it
        end
      else cons v <$> assign_paths rest next_paths
  end.

Definition WriteTable (table : Table) (properties : list PropStorageInfo)
    (d : Uri) : M World (list PropStorageInfo) :=
  let* next_paths := WriteTable_store table d 0 properties in
  match next_paths with
  | [] => ret properties
  | _ :: _ =>
      match assign_paths properties next_paths with
      | Some next_properties => ret next_properties
      | None => fatal
      end
  end.

(** The loops of [WritePartArrays] over [mirror_nodes_] and [master_nodes_],
    from index [i] on. *)
Fixpoint WritePartArrays_loop (prop_name : nat -> string) (d : Uri) (i : nat)
    (arrays : list ChunkedArray) : M World (list PropStorageInfo) :=
  match arrays with
  | [] => ret []
  | a :: rest =>
      let* stored := StoreArrowArrayAtName a d (prop_name i) in
      let* more := WritePartArrays_loop prop_name d (S i) rest in
      ret (mkPropStorageInfo (prop_name i) stored true :: more)
  end.

Definition WritePartArrays (r : RDG) (d : Uri) : M World (list PropStorageInfo) :=
  let* mirrors := WritePartArrays_loop MirrorPropName d 0 (mirror_nodes_ r) in
  let* masters := WritePartArrays_loop MasterPropName d 0 (master_nodes_ r) in
  match local_to_global_vector_ r with
  | Some l2g =>
      let* stored := StoreArrowArrayAtName l2g d "local_to_global_vector" in
      ret (mirrors ++ masters ++
           [mkPropStorageInfo "local_to_global_vector" stored true])
  | None => ret (mirrors ++ masters)
  end.

(** How many of the first [j] entries are dirty: the position, among the
    columns one [WriteTable] call stores, of the column of entry [j]. *)
Definition dirty_before (j : nat) (properties : list PropStorageInfo) : nat :=
  length (List.filter dirty (take j properties)).

(** ** The commit protocol *)

(** [desc->Finish()]: the queued writes are awaited. *)
Definition Finish : M World unit :=
  fun w => (WriteGroup_Finish w, set_desc [] (emit (EvFinish (desc w)) w)).

(** [comm->Barrier()] *)
Definition Barrier : M World unit := modify (emit EvBarrier).

(** [tsuba::NS()->Update(dir, old_version, new_meta)]; the outcome is handed
    back as a value, for the caller to test. *)
Definition Update (d : Uri) (old_version : N) (new_meta : RDGMeta)
    : M World (Result unit) :=
  fun w =>
    (Success (NS_Update d old_version new_meta w),
     emit (EvNSUpdate d old_version new_meta) w).

(** [tsuba::FileStore(name, data, size)] *)
Definition FileStore_call (file contents : string) : M World unit :=
  fun w => (FileStore file contents w, emit (EvFileStore file contents) w).

Definition CommitRDG (policy : N) (transp : bool) (lin : RDGLineage)
    : M World unit :=
  let* handle_meta := gets rdg_meta in
  let new_meta := NextVersion handle_meta Comm_Num policy transp lin in
  let* _ := Finish in
  let* _ := Barrier in
  let* res := Update (dir handle_meta) (version handle_meta) new_meta in
  (* if (!res) { GALOIS_LOG_ERROR(...); }  -- the branch only logs *)
  let* _ := match res with Fatal => fatal | _ => ret tt end in
  fun w =>
    let '(result, w') :=
      OneHostOnly
        (let curr_s := RDGMeta_ToJsonString new_meta in
         FileStore_call
           (Uri_string (RDGMeta_FileName (dir handle_meta) (version new_meta)))
           curr_s) w in
    if is_ok result then (result, set_rdg_meta new_meta w') else (result, w').

(** Modelled from the spec: [RDGPartHeader::Write] is in RDGPartHeader.cpp,
    which is not among the sources.  The header is serialised and its write
    is queued in the write group; serialisation may fail. *)
Definition RDGPartHeader_Write (h : RDGPartHeader) : M World unit :=
  let* out := ask (RDGPartHeader_serialize h) in
  StartStore (fst out) (snd out).

(** Modelled from the spec: [RDGLineage::AddCommandLine] is in RDGLineage.h,
    which is not among the sources.  Lineage is appended to, never
    rewritten. *)
Definition AddCommandLine (command_line : string) (l : RDGLineage) : RDGLineage :=
  l ++ [command_line].

Definition header_of (st : RDG * World) : RDGPartHeader :=
  part_header (core_ (fst st)).

(** The first block of [DoStore]: no topology file yet, so create one. *)
Definition DoStore_topology : M (RDG * World) unit :=
  let* handle_dir := gets (fun st => dir (rdg_meta (snd st))) in
  let* h0 := gets header_of in
  if empty (topology_path h0) then
    let* t_path := on_snd (RandFile handle_dir "topology") in
    let* topology := gets (fun st => topology_file_storage (core_ (fst st))) in
    let* _ := on_snd (StartStore (Uri_string t_path) topology) in
    on_fst (modify (update_header (set_topology_path (Uri_BaseName t_path))))
  else ret tt.

Definition DoStore (command_line : string) : M (RDG * World) unit :=
  let* _ := DoStore_topology in
  let* handle_dir := gets (fun st => dir (rdg_meta (snd st))) in
  let* core := gets (fun st => core_ (fst st)) in
  let* node_write_result :=
    on_snd (WriteTable (node_table core)
              (node_prop_info_list (part_header core)) handle_dir) in
  let* _ :=
    on_fst (modify (update_header (set_node_prop_info_list node_write_result))) in
  let* core := gets (fun st => core_ (fst st)) in
  let* edge_write_result :=
    on_snd (WriteTable (edge_table core)
              (edge_prop_info_list (part_header core)) handle_dir) in
  let* _ :=
    on_fst (modify (update_header (set_edge_prop_info_list edge_write_result))) in
  let* rdg := gets fst in
  let* part_write_result := on_snd (WritePartArrays rdg handle_dir) in
  let* _ :=
    on_fst (modify (update_header (set_part_properties part_write_result))) in
  let* h := gets header_of in
  let* _ := on_snd (RDGPartHeader_Write h) in
  let* _ :=
    on_fst (modify (fun r => set_lineage (AddCommandLine command_line (lineage_ r)) r)) in
  let* rdg := gets fst in
  on_snd (CommitRDG (policy_id_ (metadata (part_header (core_ rdg))))
            (transposed_ (metadata (part_header (core_ rdg))))
            (lineage_ rdg)).

(** [handle.impl_->rdg_meta().dir() != rdg_dir_] *)
Definition dir_differs (d : Uri) (rdg_dir : option Uri) : bool :=
  match rdg_dir with
  | Some d' => negb (Uri_eqb d d')
  | None => true
  end.

(** [RDG::Store]; [ff] is the topology [FileFrame] the caller may pass. *)
Definition Store (command_line : string) (ff : option Bytes)
    : M (RDG * World) unit :=
  let* allowed := gets (fun st => RDGHandle_AllowsWrite (snd st)) in
  if negb allowed then fail InvalidArgument
  else
    let* handle_dir := gets (fun st => dir (rdg_meta (snd st))) in
    let* rdg_dir := gets (fun st => rdg_dir_ (fst st)) in
    let* _ :=
      if dir_differs handle_dir rdg_dir then
        on_fst (modify (update_header RDGPartHeader_UnbindFromStorage))
      else ret tt in
    let* _ := on_snd (ask WriteGroup_Make) in
    let* _ := on_snd (modify (set_desc [])) in
    let* _ :=
      match ff with
      | Some frame =>
          let* t_path := on_snd (RandFile handle_dir "topology") in
          let* _ := on_snd (StartStore (Uri_string t_path) frame) in
          on_fst (modify (update_header (set_topology_path (Uri_BaseName t_path))))
      | None => ret tt
      end in
    DoStore command_line.

(** ** Partition load *)

(** Modelled from the spec: [AddMirrorNodes], [AddMasterNodes] and
    [set_local_to_global_vector] are defined in tsuba/RDG.h, which is not
    among the sources.  The first two append to the mirror-node and
    master-node sets, the third sets the local-to-global id vector. *)
Definition AddMirrorNodes (a : ChunkedArray) (r : RDG) : RDG :=
  {| core_ := core_ r; mirror_nodes_ := mirror_nodes_ r ++ [a];
     master_nodes_ := master_nodes_ r;
     local_to_global_vector_ := local_to_global_vector_ r;
     lineage_ := lineage_ r; rdg_dir_ := rdg_dir_ r |}.
Definition AddMasterNodes (a : ChunkedArray) (r : RDG) : RDG :=
  {| core_ := core_ r; mirror_nodes_ := mirror_nodes_ r;
     master_nodes_ := master_nodes_ r ++ [a];
     local_to_global_vector_ := local_to_global_vector_ r;
     lineage_ := lineage_ r; rdg_dir_ := rdg_dir_ r |}.
Definition set_local_to_global_vector (a : ChunkedArray) (r : RDG) : RDG :=
  {| core_ := core_ r; mirror_nodes_ := mirror_nodes_ r;
     master_nodes_ := master_nodes_ r;
     local_to_global_vector_ := Some a;
     lineage_ := lineage_ r; rdg_dir_ := rdg_dir_ r |}.

(** [name.find(prefix) == 0] *)
Definition starts_with (prefix s : string) : bool := String.prefix prefix s.

(** [table->schema()->field(0)] and [table->column(0)] of a table without
    columns have no defined result. *)
Definition AddPartitionMetadataArray (table : Table) : M RDG unit :=
  match table !! 0%nat with
  | None => fatal
  | Some (field_name, col) =>
      if starts_with "mirror_nodes" field_name then
        modify (AddMirrorNodes col)
      else if starts_with "master_nodes" field_name then
        modify (AddMasterNodes col)
      else if String.eqb field_name "local_to_global_vector" then
        modify (set_local_to_global_vector col)
      else fail InvalidArgument
  end.

(** [LoadTable(name, path)], with the read it causes. *)
Definition LoadTable_call (column_name : string) (file : Uri) : M World Table :=
  fun w => (LoadTable column_name file w, emit (EvLoadTable column_name file) w).

(** Modelled from the spec: [AddTables] is in AddTables.h, which is not
    among the sources.  For each attribute of the list, in header order, it
    fetches the column from its file under the directory and hands the
    loaded table to [add_fn]; the first failure ends the load. *)
Fixpoint AddTables (uri : Uri) (properties : list PropStorageInfo)
    (add_fn : Table -> M RDG unit) : M (RDG * World) unit :=
  match properties with
  | [] => ret tt
  | v :: rest =>
      let* table := on_snd (LoadTable_call (name v) (Uri_Join uri (path v))) in
      let* _ := on_fst (add_fn table) in
      AddTables uri rest add_fn
  end.

(** Modelled from the spec: [RDGCore::AddNodeProperties] and
    [RDGCore::AddEdgeProperties] are in RDGCore.cpp, which is not among the
    sources.  They add the columns of [table] to the node (resp. edge)
    attribute table, or fail and leave it as it was; what the extended
    table is, is [RDGCore_AddProperties]'s to say. *)
Definition core_AddNodeProperties (table : Table) : M RDG unit :=
  fun r =>
    match RDGCore_AddProperties (node_table (core_ r)) table with
    | Success t => (Success tt, set_core (set_node_table t (core_ r)) r)
    | Failure e => (Failure e, r)
    | Fatal => (Fatal, r)
    end.
Definition core_AddEdgeProperties (table : Table) : M RDG unit :=
  fun r =>
    match RDGCore_AddProperties (edge_table (core_ r)) table with
    | Success t => (Success tt, set_core (set_edge_table t (core_ r)) r)
    | Failure e => (Failure e, r)
    | Fatal => (Fatal, r)
    end.

(** [core_->topology_file_storage().Bind(path, true)] *)
Definition Bind_topology (file : string) : M (RDG * World) unit :=
  fun st =>
    let w' := emit (EvBindTopology file) (snd st) in
    match FileView_Bind file (snd st) with
    | Success b =>
        (Success tt,
         (set_core (set_topology_file_storage b (core_ (fst st))) (fst st), w'))
    | Failure e => (Failure e, (fst st, w'))
    | Fatal => (Fatal, (fst st, w'))
    end.

Definition DoMake (metadata_dir : Uri) : M (RDG * World) unit :=
  fun st =>
    let '(node_result, st1) :=
      AddTables metadata_dir (node_prop_info_list (header_of st))
        core_AddNodeProperties st in
    if negb (is_ok node_result) then (error node_result, st1)
    else
      let '(edge_result, st2) :=
        AddTables metadata_dir (edge_prop_info_list (header_of st1))
          core_AddEdgeProperties st1 in
      if negb (is_ok edge_result) then (error edge_result, st2)
      else
        let part_prop_info_list := part_prop_info_list (header_of st2) in
        let finish : M (RDG * World) unit :=
          let* t_path :=
            gets (fun s => Uri_Join metadata_dir (topology_path (header_of s))) in
          let* _ := Bind_topology (Uri_string t_path) in
          on_fst (modify (set_rdg_dir metadata_dir)) in
        match part_prop_info_list with
        | [] => finish st2
        | _ :: _ =>
            let '(part_result, st3) :=
              AddTables metadata_dir part_prop_info_list
                AddPartitionMetadataArray st2 in
            if negb (is_ok part_result) then (error edge_result, st3)
            else finish st3
        end.

(** [RDG(std::make_unique<RDGCore>(std::move(header)))] *)
Definition RDG_of_header (h : RDGPartHeader) : RDG :=
  {| core_ := mkRDGCore [] [] h no_bytes;
     mirror_nodes_ := []; master_nodes_ := [];
     local_to_global_vector_ := None;
     lineage_ := []; rdg_dir_ := None |}.

(** [RDGPartHeader::Make(partition_path)], with the read it causes. *)
Definition RDGPartHeader_Make_call (file : Uri) : M World RDGPartHeader :=
  fun w => (RDGPartHeader_Make file w, emit (EvReadHeader file) w).

(** [RDG::Make(meta, node_props, edge_props)] after the host-count check. *)
Definition Make_load (meta : RDGMeta) (node_props edge_props : option (list string))
    : M World RDG :=
  let partition_path := RDGMeta_PartitionFileName meta Comm_ID in
  let* header := RDGPartHeader_Make_call partition_path in
  let* pruned :=
    ask (fun _ => RDGPartHeader_PrunePropsTo node_props edge_props header) in
  fun w =>
    match DoMake (dir meta) (RDG_of_header pruned, w) with
    | (Success _, (rdg, w')) => (Success rdg, w')
    | (Failure e, (_, w')) => (Failure e, w')
    | (Fatal, (_, w')) => (Fatal, w')
    end.

(** [meta.num_hosts() != Comm()->Num] *)
Definition host_count_differs (meta : RDGMeta) : bool :=
  negb (N.eqb (num_hosts meta) Comm_Num).

Definition Make (meta : RDGMeta) (node_props edge_props : option (list string))
    : M World RDG :=
  if negb (RDGMeta_IsEmptyRDG meta) && host_count_differs meta then
    fail InvalidArgument
  else Make_load meta node_props edge_props.

(** [RDG::Make(handle, node_props, edge_props)] *)
Definition Make_handle (node_props edge_props : option (list string))
    : M World RDG :=
  let* allowed := gets RDGHandle_AllowsRead in
  if negb allowed then fail InvalidArgument
  else
    let* meta := gets rdg_meta in
    Make meta node_props edge_props.

(** ** Adding properties *)

(** Modelled from the spec: [AppendNodePropStorageInfo] and
    [AppendEdgePropStorageInfo] are in RDGPartHeader.h, which is not among
    the sources.  They add one entry at the end of the header's list. *)
Definition AppendNodePropStorageInfo (v : PropStorageInfo) (h : RDGPartHeader)
    : RDGPartHeader :=
  set_node_prop_info_list (node_prop_info_list h ++ [v]) h.
Definition AppendEdgePropStorageInfo (v : PropStorageInfo) (h : RDGPartHeader)
    : RDGPartHeader :=
  set_edge_prop_info_list (edge_prop_info_list h ++ [v]) h.

(** [PropStorageInfo{.name = ..., .path = ""}]; the field left out takes its
    default. *)
Definition new_PropStorageInfo (column_name : string) : PropStorageInfo :=
  {| name := column_name; path := "";
     persist := PropStorageInfo_default_persist |}.

(** The loop over [schema->field(i)], for the columns still to visit. *)
Fixpoint append_infos (append : PropStorageInfo -> RDGPartHeader -> RDGPartHeader)
    (columns : Table) (r : RDG) : RDG :=
  match columns with
  | [] => r
  | (field_name, _) :: rest =>
      append_infos append rest
        (update_header (append (new_PropStorageInfo field_name)) r)
  end.

(** [assert(cond)]: nothing when the build defines [NDEBUG]; otherwise the
    process is aborted when the condition does not hold. *)
Definition assert {S} (cond : S -> bool) : M S unit :=
  fun s =>
    if NDEBUG then (Success tt, s)
    else if cond s then (Success tt, s) else (Fatal, s).

Definition AddNodeProperties (table : Table) : M RDG unit :=
  let* _ := core_AddNodeProperties table in
  let* _ := modify (append_infos AppendNodePropStorageInfo table) in
  let* _ :=
    assert (fun r =>
      Nat.eqb (num_columns (node_table (core_ r)))
        (length (node_prop_info_list (part_header (core_ r))))) in
  ret tt.

Definition AddEdgeProperties (table : Table) : M RDG unit :=
  let* _ := core_AddEdgeProperties table in
  let* _ := modify (append_infos AppendEdgePropStorageInfo table) in
  let* _ :=
    assert (fun r =>
      Nat.eqb (num_columns (edge_table (core_ r)))
        (length (edge_prop_info_list (part_header (core_ r))))) in
  ret tt.

(** ** Vocabulary of the statements *)


(** The number of partition-boundary arrays an RDG holds. *)
Definition num_part_arrays (r : RDG) : nat :=
  length (mirror_nodes_ r) + length (master_nodes_ r)
  + match local_to_global_vector_ r with Some _ => 1 | None => 0 end.

(** The entries one call adds for [table]: one per column, under the
    column's name, with an empty path. *)
Definition added_for (table : Table) (added : list PropStorageInfo) : Prop :=
  length added = num_columns table /\
  map name added = map fst table /\
  Forall (fun v => path v = "") added.

(** The entry [WritePartArrays] records for the array stored as its
    [k]-th, under the name [column_name], drawing file names from [sd] on. *)
Definition part_entry (d : Uri) (sd : nat) (column_name : string) (k : nat)
    : PropStorageInfo :=
  mkPropStorageInfo column_name
    (Uri_BaseName (Uri_RandFile d column_name (sd + k))) true.

(** The names [WritePartArrays] gives its arrays, in the order it stores
    them. *)
Definition part_names (r : RDG) : list string :=
  imap (fun k _ => MirrorPropName k) (mirror_nodes_ r)
  ++ imap (fun k _ => MasterPropName k) (master_nodes_ r)
  ++ match local_to_global_vector_ r with
     | Some _ => ["local_to_global_vector"]
     | None => []
     end.


(** The reads of the columns of a list of properties, in order. *)
Definition load_events (uri : Uri) (properties : list PropStorageInfo)
    : list Event :=
  map (fun v => EvLoadTable (name v) (Uri_Join uri (path v))) properties.

(** What the three callbacks of [DoMake] leave alone: the header and the
    directory the RDG is bound to. *)
Definition keeps_header (h : RDGPartHeader) (d : option Uri) (r : RDG) : Prop :=
  part_header (core_ r) = h /\ rdg_dir_ r = d.

End Model.

(** ** The typed graph view *)

Module PropertyGraph.
Section View.

(** [PropertyFileGraph], [PropertyViewTuple<NodeProps>] and
    [PropertyViewTuple<EdgeProps>], with the two binding functions of
    galois/graphs/Details.h, which is not among the sources. *)
Context {PropertyFileGraph NodeView EdgeView : Type}.
Variable MakeNodePropertyViews :
  PropertyFileGraph -> list string -> Result NodeView.
Variable MakeEdgePropertyViews :
  PropertyFileGraph -> list string -> Result EdgeView.
(** [pfg->node_schema()->field_names()], [pfg->edge_schema()->field_names()] *)
Variable node_field_names : PropertyFileGraph -> list string.
Variable edge_field_names : PropertyFileGraph -> list string.

Record PropertyGraph : Type := mkPropertyGraph {
  pfg_ : PropertyFileGraph;
  node_view_ : NodeView;
  edge_view_ : EdgeView
}.

Definition Make (pfg : PropertyFileGraph)
    (node_properties edge_properties : list string) : Result PropertyGraph :=
  let node_view_result := MakeNodePropertyViews pfg node_properties in
  match node_view_result with
  | Success node_view =>
      let edge_view_result := MakeEdgePropertyViews pfg edge_properties in
      match edge_view_result with
      | Success edge_view => Success (mkPropertyGraph pfg node_view edge_view)
      | _ => error edge_view_result
      end
  | _ => error node_view_result
  end.

Definition Make_all (pfg : PropertyFileGraph) : Result PropertyGraph :=
  Make pfg (node_field_names pfg) (edge_field_names pfg).

End View.
End PropertyGraph.

(** ** A concrete platform

    One host, an in-memory blob store and naming service that always
    succeed unless told otherwise, columns of integers, a serialiser that
    rejects the column named [bad], URIs as lists of path segments, a
    persist flag that defaults to unset and a build with assertions. *)

#[local] Instance ex_platform : Platform := {|
  ChunkedArray := list Z;
  Bytes := list Z;
  Uri := list string;
  Uri_string := String.concat "/";
  Uri_Join := fun u s => u ++ [s];
  Uri_RandFile := fun u prefix sd => u ++ [prefix +:+ "-" +:+ pretty sd];
  Uri_BaseName := fun u => List.last u "";
  Uri_eqb := fun u v => bool_decide (u = v);
  no_bytes := [];
  parquet_WriteTable := fun column_name array =>
    if String.eqb column_name "bad" then ParquetNotOk else ParquetOk array
|}.

Definition ex_header (nodes edges parts : list PropStorageInfo) (topology : string)
    : RDGPartHeader :=
  mkRDGPartHeader nodes edges parts topology (mkPartitionMetadata 0 false).

(** The services, given the outcomes of [WriteGroup::Finish] and of the
    naming service's [Update], and the header that [RDGPartHeader::Make]
    reads. *)
Definition ex_services (finish update : Result unit)
    (stored_header : RDGPartHeader) : Services := {|
  Comm_Num := 1;
  Comm_ID := 0;
  FileFrame_Init := fun _ => Success tt;
  WriteGroup_Make := fun _ => Success tt;
  WriteGroup_Finish := fun _ => finish;
  NS_Update := fun _ _ _ _ => update;
  FileStore := fun _ _ _ => Success tt;
  OneHostOnly := fun cb => cb;
  RDGMeta_ToJsonString := fun m => pretty (version m);
  RDGMeta_FileName := fun d v => d ++ ["meta_" +:+ pretty v];
  RDGMeta_IsEmptyRDG := fun m => N.eqb (num_hosts m) 0;
  RDGMeta_PartitionFileName := fun m host => dir m ++ ["part_" +:+ pretty host];
  RDGHandle_AllowsRead := fun _ => true;
  RDGHandle_AllowsWrite := fun _ => true;
  RDGPartHeader_Make := fun _ _ => Success stored_header;
  RDGPartHeader_serialize := fun _ _ => Success ("part_header", []);
  RDGPartHeader_PrunePropsTo := fun _ _ h => Success h;
  RDGPartHeader_UnbindFromStorage := fun h => h;
  RDGCore_AddProperties := fun current added => Success (current ++ added);
  LoadTable := fun column_name _ _ => Success [(column_name, [])];
  FileView_Bind := fun _ _ => Success [];
  PropStorageInfo_default_persist := false;
  NDEBUG := false
|}.

Definition ex_meta (v hosts : N) : RDGMeta :=
  mkRDGMeta ["graph"] v hosts 0 false [].

Definition ex_world (v : N) : World := mkWorld (ex_meta v 1) [] 0 [].

Definition ex_rdg (nodes edges : Table) (h : RDGPartHeader)
    (mirrors : list (list Z)) : RDG :=
  mkRDG (mkRDGCore nodes edges h []) mirrors [] None [] (Some ["graph"]).

(** A typed view over columns that carry their Arrow type. *)
Inductive ex_type : Type := ex_Int64 | ex_String.

#[local] Instance ex_type_eq_dec : EqDecision ex_type.
Proof. solve_decision. Defined.

(** A graph: the typed columns of its node table and of its edge table. *)
Definition ex_graph : Type := list (string * ex_type) * list (string * ex_type).

(** Bind each wanted type to the column of the requested name: the
    position of the column, or an error when the name is absent
    ([OtherError 1]) or the stored type differs ([OtherError 2]). *)
Fixpoint ex_bind (columns : list (string * ex_type)) (wanted : list ex_type)
    (names : list string) : Result (list nat) :=
  match wanted, names with
  | ty :: wanted', nm :: names' =>
      match list_find (fun c => fst c = nm) columns with
      | None => Failure (OtherError 1)
      | Some (i, (_, stored)) =>
          if decide (stored = ty) then
            match ex_bind columns wanted' names' with
            | Success views => Success (i :: views)
            | other => other
            end
          else Failure (OtherError 2)
      end
  | [], _ => Success []
  | _ :: _, [] => Failure InvalidArgument
  end.

Definition ex_pfg : ex_graph := ([("rank", ex_String)], [("weight", ex_Int64)]).

(** The services when nothing fails, and an RDG that holds one array in
    each partition-boundary slot. *)
Definition ex_ok : Services :=
  ex_services (Success tt) (Success tt) (ex_header [] [] [] "").

Definition ex_partitioned : RDG :=
  mkRDG (mkRDGCore [] [] (ex_header [] [] [] "") [])
    [[5%Z]] [[6%Z]] (Some [7%Z]) [] (Some ["graph"]).

(** * Properties *)

Ltac unfold_monad :=
  unfold bind, ret, fail, fatal, gets, get, modify, ask, on_fst, on_snd in *;
  simpl in *.

Section Properties.
Context {P : Platform} {Sv : Services}.

(** ** The commit protocol *)

(** C2. If [WriteGroup::Finish] reports a failed write, [CommitRDG] returns
    that failure; the only event of the call is the wait itself (no barrier,
    no naming-service update, no metadata file), and the handle's cached
    [RDGMeta] is unchanged. *)
Theorem CommitRDG_finish_failure policy transp lin (w : World) e :
  WriteGroup_Finish w = Failure e ->
  exists w',
    CommitRDG policy transp lin w = (Failure e, w') /\
    rdg_meta w' = rdg_meta w /\
    log w' = log w ++ [EvFinish (desc w)].
Proof.
  intros Hfinish. unfold CommitRDG, Finish. unfold_monad.
  rewrite Hfinish. eexists. split; [reflexivity|]. split; reflexivity.
Qed.

(** Once the queued writes are durable, the outcome of the naming
    service's [Update] plays no part in the result: a failed update is
    followed by the metadata file and, when that is written, by success and
    the advance of the cached metadata. *)
Lemma CommitRDG_update_failure_ignored policy transp lin (w w' : World) e :
  let handle_meta := rdg_meta w in
  let new_meta := NextVersion handle_meta Comm_Num policy transp lin in
  let w1 := emit EvBarrier (set_desc [] (emit (EvFinish (desc w)) w)) in
  let w2 := emit (EvNSUpdate (dir handle_meta) (version handle_meta) new_meta) w1 in
  WriteGroup_Finish w = Success tt ->
  NS_Update (dir handle_meta) (version handle_meta) new_meta w1 = Failure e ->
  OneHostOnly
    (FileStore_call
       (Uri_string (RDGMeta_FileName (dir handle_meta) (version new_meta)))
       (RDGMeta_ToJsonString new_meta)) w2 = (Success tt, w') ->
  CommitRDG policy transp lin w = (Success tt, set_rdg_meta new_meta w').
Proof.
  intros handle_meta new_meta w1 w2 Hfinish Hupdate Hone.
  unfold CommitRDG, Finish, Barrier, Update. unfold_monad.
  rewrite Hfinish. fold handle_meta new_meta. fold w1.
  rewrite Hupdate. fold w2. rewrite Hone. reflexivity.
Qed.

(** ** Column storage *)

Lemma StoreArrowArrayAtName_success array d column_name (w w' : World) stored :
  StoreArrowArrayAtName array d column_name w = (Success stored, w') ->
  exists buffer,
    parquet_WriteTable column_name array = ParquetOk buffer /\
    stored = Uri_BaseName (Uri_RandFile d column_name (seed w)) /\
    w' = mkWorld (rdg_meta w)
           (desc w ++ [mkPendingWrite
                         (Uri_string (Uri_RandFile d column_name (seed w)))
                         buffer])
           (S (seed w)) (log w).
Proof.
  unfold StoreArrowArrayAtName, DoStoreArrowArrayAtName.
  destruct (FileFrame_Init _) as [[]|e|]; try discriminate.
  destruct (parquet_WriteTable column_name array) as [buffer| |];
    try discriminate.
  intros [= <- <-]. exists buffer. auto.
Qed.

Lemma skip_test (v : PropStorageInfo) :
  negb (persist v) || negb (empty (path v)) = negb (dirty v).
Proof. unfold dirty. by rewrite negb_andb. Qed.

Lemma dirty_before_0 properties : dirty_before 0 properties = 0.
Proof. reflexivity. Qed.

Lemma dirty_before_S j v rest :
  dirty_before (S j) (v :: rest)
    = if dirty v then S (dirty_before j rest) else dirty_before j rest.
Proof. unfold dirty_before. simpl. by destruct (dirty v). Qed.

Lemma WriteTable_store_success table d properties :
  forall i (w w' : World) next_paths,
  WriteTable_store table d i properties w = (Success next_paths, w') ->
  length next_paths = length (List.filter dirty properties) /\
  rdg_meta w' = rdg_meta w /\ log w' = log w /\
  seed w' = seed w + length next_paths /\
  exists news,
    desc w' = desc w ++ news /\
    length news = length next_paths /\
    forall j v, properties !! j = Some v -> dirty v = true ->
      exists field_name col buffer,
        table !! (i + j) = Some (field_name, col) /\
        parquet_WriteTable (store_name field_name v) col = ParquetOk buffer /\
        let u := Uri_RandFile d (store_name field_name v)
                   (seed w + dirty_before j properties) in
        news !! dirty_before j properties
          = Some (mkPendingWrite (Uri_string u) buffer) /\
        next_paths !! dirty_before j properties = Some (Uri_BaseName u).
Proof.
  induction properties as [|v rest IH]; intros i w w' next_paths; simpl.
  - unfold_monad. intros [= <- <-]. split_and!; try done; try (simpl; lia).
    exists []. rewrite app_nil_r. repeat split. intros j v Hj. by destruct j.
  - rewrite skip_test. destruct (dirty v) eqn:Hv; simpl.
    + destruct (table !! i) as [[field_name col]|] eqn:Hcol;
        [|unfold_monad; discriminate].
      unfold bind at 1.
      destruct (StoreArrowArrayAtName col d (store_name field_name v) w)
        as [[stored|e|] w1] eqn:Hstore; try discriminate.
      apply StoreArrowArrayAtName_success in Hstore
        as (buffer & Hbuf & -> & ->).
      unfold bind at 1.
      destruct (WriteTable_store table d (S i) rest _)
        as [[paths|e|] w2] eqn:Hrest; try discriminate.
      unfold ret. intros [= <- <-].
      apply IH in Hrest as (Hlen & Hmeta & Hlog & Hseed & news & Hdesc & Hnews & Hall).
      simpl in *. split_and!; try congruence; try lia.
      eexists (_ :: news). rewrite Hdesc, <- app_assoc. simpl.
      split_and!; [reflexivity | congruence |].
      intros [|j] v' Hj Hv'.
      * injection Hj as <-. rewrite dirty_before_0, !Nat.add_0_r.
        exists field_name, col, buffer. simpl. auto.
      * simpl in Hj. rewrite dirty_before_S, Hv.
        destruct (Hall j v' Hj Hv') as (fn & c & b & Ht & Hb & Hn & Hp).
        exists fn, c, b. rewrite <- !Nat.add_succ_comm. simpl. auto.
    + intros Hrest.
      apply IH in Hrest
        as (Hlen & Hmeta & Hlog & Hseed & news & Hdesc & Hnews & Hall).
      split_and!; try assumption.
      exists news. split_and!; try assumption.
      intros [|j] v' Hj Hv'.
      * injection Hj as <-. congruence.
      * simpl in Hj. rewrite dirty_before_S, Hv.
        destruct (Hall j v' Hj Hv') as (fn & c & b & Ht & Hb & Hn & Hp).
        exists fn, c, b. rewrite <- Nat.add_succ_comm. auto.
Qed.

Lemma assign_paths_spec properties :
  forall next_paths,
  length next_paths = length (List.filter dirty properties) ->
  exists next_properties,
    assign_paths properties next_paths = Some next_properties /\
    length next_properties = length properties /\
    forall j v, properties !! j = Some v ->
      (dirty v = false -> next_properties !! j = Some v) /\
      (forall p, dirty v = true ->
         next_paths !! dirty_before j properties = Some p ->
         next_properties !! j = Some (set_path v p)).
Proof.
  induction properties as [|v rest IH]; intros next_paths Hlen; simpl in *.
  - exists []. split_and!; try done.
  - fold (dirty v) in *. destruct (dirty v) eqn:Hv; simpl in *.
    + destruct next_paths as [|p it]; [discriminate|].
      injection Hlen as Hlen.
      destruct (IH it Hlen) as (r & -> & Hr & Hall).
      eexists. split_and!; [reflexivity | simpl; congruence |].
      intros [|j] v' Hj.
      * injection Hj as <-. split; [congruence|].
        intros p' _. rewrite dirty_before_0. by intros [= <-].
      * simpl in Hj. rewrite dirty_before_S, Hv. simpl. by apply Hall.
    + destruct (IH next_paths Hlen) as (r & -> & Hr & Hall).
      eexists. split_and!; [reflexivity | simpl; congruence |].
      intros [|j] v' Hj.
      * injection Hj as <-. split; [done | congruence].
      * simpl in Hj. rewrite dirty_before_S, Hv. simpl. by apply Hall.
Qed.

Lemma no_dirty_entry (properties : list PropStorageInfo) j v :
  length (List.filter dirty properties) = 0 ->
  properties !! j = Some v -> dirty v = false.
Proof.
  revert j. induction properties as [|v0 rest IH]; intros j Hlen Hj;
    [by destruct j|].
  simpl in Hlen. destruct (dirty v0) eqn:Hv0; [discriminate|].
  destruct j as [|j]; [by injection Hj as <- | by eapply IH].
Qed.

(** What a successful [WriteTable] has done: it queued one write per dirty
    entry, in order, and the list it returns differs from its argument in
    the paths of the dirty entries only. *)
Lemma WriteTable_success table properties d (w w' : World) next_properties :
  WriteTable table properties d w = (Success next_properties, w') ->
  exists news,
    desc w' = desc w ++ news /\
    length news = length (List.filter dirty properties) /\
    length next_properties = length properties /\
    forall j v, properties !! j = Some v ->
      (dirty v = false -> next_properties !! j = Some v) /\
      (dirty v = true ->
         exists field_name col buffer,
           table !! j = Some (field_name, col) /\
           parquet_WriteTable (store_name field_name v) col = ParquetOk buffer /\
           let u := Uri_RandFile d (store_name field_name v)
                      (seed w + dirty_before j properties) in
           news !! dirty_before j properties
             = Some (mkPendingWrite (Uri_string u) buffer) /\
           next_properties !! j = Some (set_path v (Uri_BaseName u))).
Proof.
  unfold WriteTable. unfold bind at 1.
  destruct (WriteTable_store table d 0 properties w)
    as [[next_paths|e|] w1] eqn:Hstore; try discriminate.
  apply WriteTable_store_success in Hstore
    as (Hlen & _ & _ & _ & news & Hdesc & Hnews & Hall).
  destruct next_paths as [|p it].
  - unfold ret. intros [= <- <-]. exists news.
    split_and!; [done | congruence | done |].
    intros j v Hj. split; [done|].
    intros Hv. rewrite (no_dirty_entry properties j v) in Hv; done.
  - destruct (assign_paths_spec properties (p :: it) Hlen)
      as (r & -> & Hr & Hassign).
    unfold ret. intros [= <- <-]. exists news.
    split_and!; [done | congruence | done |].
    intros j v Hj. destruct (Hassign j v Hj) as [Hclean Hdirty].
    split; [done|]. intros Hv.
    destruct (Hall j v Hj Hv) as (fn & c & b & Ht & Hb & Hn & Hp).
    exists fn, c, b. split_and!; try done.
    by apply Hdirty.
Qed.

(** C3. A successful [WriteTable] stores exactly the properties whose
    persist flag is set and whose path is empty: it queues one write per
    such property, in property-list order, of the column at the property's
    index; in the returned list each of them has for path the base name of
    the file its column was stored under, and every other property (among
    them all with a non-empty path) is returned as it was. *)
Theorem WriteTable_stores_dirty_columns table properties d (w w' : World)
    next_properties :
  WriteTable table properties d w = (Success next_properties, w') ->
  exists news,
    desc w' = desc w ++ news /\
    length news = length (List.filter dirty properties) /\
    length next_properties = length properties /\
    forall j v, properties !! j = Some v ->
      (dirty v = false -> next_properties !! j = Some v) /\
      (dirty v = true ->
         exists field_name col buffer,
           table !! j = Some (field_name, col) /\
           parquet_WriteTable (store_name field_name v) col = ParquetOk buffer /\
           let u := Uri_RandFile d (store_name field_name v)
                      (seed w + dirty_before j properties) in
           news !! dirty_before j properties
             = Some (mkPendingWrite (Uri_string u) buffer) /\
           next_properties !! j
             = Some {| name := name v; path := Uri_BaseName u;
                       persist := persist v |}).
Proof. exact (WriteTable_success table properties d w w' next_properties). Qed.









(** A store whose frame cannot be initialised fails with the error of the
    initialisation; a store whose serialiser reports a status that is not
    ok, or throws, fails with [ArrowError].  Either way a file name has
    been drawn and nothing is queued. *)
Lemma StoreArrowArrayAtName_fails array d column_name (w : World) e :
  let w1 := set_seed (S (seed w)) w in
  FileFrame_Init w1 = Failure e \/
  (FileFrame_Init w1 = Success tt /\ e = ArrowError /\
   (parquet_WriteTable column_name array = ParquetNotOk \/
    parquet_WriteTable column_name array = ParquetThrows)) ->
  StoreArrowArrayAtName array d column_name w = (Failure e, w1).
Proof.
  intros w1 Hfail. unfold StoreArrowArrayAtName, DoStoreArrowArrayAtName.
  fold w1. destruct Hfail as [-> | (-> & -> & [-> | ->])]; reflexivity.
Qed.

Lemma WriteTable_store_app table d pre post :
  forall i (w : World),
  WriteTable_store table d i (pre ++ post) w
    = (let* stored := WriteTable_store table d i pre in
       let* more := WriteTable_store table d (i + length pre) post in
       ret (stored ++ more)) w.
Proof.
  induction pre as [|v rest IH]; intros i w; simpl.
  - unfold bind, ret. rewrite Nat.add_0_r.
    by destruct (WriteTable_store table d i post w) as [[more|e|] w'].
  - rewrite skip_test, <- Nat.add_succ_comm.
    destruct (dirty v); simpl; [|by rewrite IH].
    destruct (table !! i) as [[field_name col]|]; [|reflexivity].
    unfold bind, ret in IH |- *.
    destruct (StoreArrowArrayAtName col d (store_name field_name v) w)
      as [[stored|e|] w1]; try reflexivity.
    rewrite IH.
    destruct (WriteTable_store table d (S i) rest w1)
      as [[paths|e|] w2]; try reflexivity.
    simpl.
    by destruct (WriteTable_store table d (S (i + length rest)) post w2)
      as [[more|e|] w3].
Qed.

Lemma WriteTable_stored table properties d (w w' : World) next_properties :
  WriteTable table properties d w = (Success next_properties, w') ->
  exists next_paths,
    WriteTable_store table d 0 properties w = (Success next_paths, w').
Proof.
  unfold WriteTable. unfold bind at 1.
  destruct (WriteTable_store table d 0 properties w)
    as [[next_paths|e|] w1]; try discriminate.
  destruct next_paths as [|p it].
  - unfold ret. intros [= <- <-]. eauto.
  - destruct (assign_paths _ _); unfold ret, fatal; intros [= <- <-]. eauto.
Qed.

(** The columns before entry [v] are stored, and the store of the column
    of [v] fails: [WriteTable] returns that error, in the state the failed
    store left. *)
Lemma WriteTable_column_failure table pre v post d (w w1 : World)
    stored field_name col e :
  WriteTable table pre d w = (Success stored, w1) ->
  dirty v = true ->
  table !! length pre = Some (field_name, col) ->
  let w2 := set_seed (S (seed w1)) w1 in
  FileFrame_Init w2 = Failure e \/
  (FileFrame_Init w2 = Success tt /\ e = ArrowError /\
   (parquet_WriteTable (store_name field_name v) col = ParquetNotOk \/
    parquet_WriteTable (store_name field_name v) col = ParquetThrows)) ->
  WriteTable table (pre ++ v :: post) d w = (Failure e, w2).
Proof.
  intros Hpre Hv Hcol w2 Hfail.
  apply WriteTable_stored in Hpre as (paths & Hpre).
  unfold WriteTable. unfold bind at 1. rewrite WriteTable_store_app.
  unfold bind at 1. rewrite Hpre. simpl.
  rewrite skip_test, Hv, Hcol. simpl.
  unfold bind at 1. unfold bind at 1.
  by rewrite (StoreArrowArrayAtName_fails _ _ _ _ e Hfail).
Qed.

(** ** Store *)

(** [WritePartArrays] reads the three partition-boundary slots only. *)
Lemma WritePartArrays_fields (r r' : RDG) d :
  mirror_nodes_ r = mirror_nodes_ r' ->
  master_nodes_ r = master_nodes_ r' ->
  local_to_global_vector_ r = local_to_global_vector_ r' ->
  WritePartArrays r d = WritePartArrays r' d.
Proof. unfold WritePartArrays. by intros -> -> ->. Qed.

Lemma WriteTable_store_failure table d properties :
  forall i (w w' : World) e,
  WriteTable_store table d i properties w = (Failure e, w') ->
  exists j v field_name col w0,
    properties !! j = Some v /\ dirty v = true /\
    table !! (i + j) = Some (field_name, col) /\
    StoreArrowArrayAtName col d (store_name field_name v) w0 = (Failure e, w').
Proof.
  induction properties as [|v rest IH]; intros i w w' e; simpl;
    [unfold ret; discriminate|].
  rewrite skip_test. destruct (dirty v) eqn:Hv; simpl.
  - destruct (table !! i) as [[field_name col]|] eqn:Hcol;
      [|unfold fatal; discriminate].
    unfold bind at 1.
    destruct (StoreArrowArrayAtName col d (store_name field_name v) w)
      as [[stored|e0|] w1] eqn:Hstore; try discriminate.
    + unfold bind at 1.
      destruct (WriteTable_store table d (S i) rest w1)
        as [[paths|e1|] w2] eqn:Hrest; try (unfold ret; discriminate).
      intros [= <- <-].
      apply IH in Hrest as (j & v' & fn & c & w0 & Hj & Hv' & Ht & Hs).
      exists (S j), v', fn, c, w0. rewrite <- Nat.add_succ_comm. auto.
    + intros [= <- <-]. exists 0, v, field_name, col, w.
      rewrite Nat.add_0_r. auto.
  - intros Hrest.
    apply IH in Hrest as (j & v' & fn & c & w0 & Hj & Hv' & Ht & Hs).
    exists (S j), v', fn, c, w0. rewrite <- Nat.add_succ_comm. auto.
Qed.

(** A failure of [WriteTable] is the failure of the store of one of its
    dirty columns. *)
Lemma WriteTable_failure table properties d (w w' : World) e :
  WriteTable table properties d w = (Failure e, w') ->
  exists j v field_name col w0,
    properties !! j = Some v /\ dirty v = true /\
    table !! j = Some (field_name, col) /\
    StoreArrowArrayAtName col d (store_name field_name v) w0 = (Failure e, w').
Proof.
  unfold WriteTable. unfold bind at 1.
  destruct (WriteTable_store table d 0 properties w)
    as [[next_paths|e0|] w1] eqn:Hstore.
  - destruct next_paths; [unfold ret; discriminate|].
    destruct (assign_paths _ _); unfold ret, fatal; discriminate.
  - intros [= <- <-]. by apply WriteTable_store_failure in Hstore.
  - discriminate.
Qed.

Local Opaque WriteTable WritePartArrays CommitRDG RDGPartHeader_Write.

(** The three storage-info sequences of the header. *)
Lemma DoStore_topology_frame (st : RDG * World) :
  exists st0,
    DoStore_topology st = (Success tt, st0) /\
    node_prop_info_list (header_of st0) = node_prop_info_list (header_of st) /\
    edge_prop_info_list (header_of st0) = edge_prop_info_list (header_of st) /\
    part_prop_info_list (header_of st0) = part_prop_info_list (header_of st) /\
    node_table (core_ (fst st0)) = node_table (core_ (fst st)) /\
    edge_table (core_ (fst st0)) = edge_table (core_ (fst st)) /\
    mirror_nodes_ (fst st0) = mirror_nodes_ (fst st) /\
    master_nodes_ (fst st0) = master_nodes_ (fst st) /\
    local_to_global_vector_ (fst st0) = local_to_global_vector_ (fst st) /\
    rdg_dir_ (fst st0) = rdg_dir_ (fst st) /\
    rdg_meta (snd st0) = rdg_meta (snd st).
Proof.
  destruct st as [r w]. unfold DoStore_topology, RandFile, StartStore.
  unfold_monad. unfold header_of. simpl.
  destruct (empty (topology_path (part_header (core_ r))));
    eexists; (split; [reflexivity|]); simpl; split_and!; reflexivity.
Qed.
Ltac enter_DoStore st Htopo :=
  let st0 := fresh "st0" in
  destruct (DoStore_topology_frame st)
    as (st0 & Htopo & ?Hn & ?He & ?Hp & ?Hnt & ?Het & ?Hmi & ?Hma & ?Hl2g
        & ?Hdir & ?Hmeta);
  unfold DoStore; unfold bind at 1; rewrite Htopo in *; unfold_monad;
  unfold header_of in *; simpl in *.

Lemma DoStore_node_failure command_line (st : RDG * World) e w1 :
  let st0 := snd (DoStore_topology st) in
  let core := core_ (fst st) in
  WriteTable (node_table core) (node_prop_info_list (part_header core))
    (dir (rdg_meta (snd st))) (snd st0) = (Failure e, w1) ->
  exists rdg',
    DoStore command_line st = (Failure e, (rdg', w1)) /\
    node_prop_info_list (part_header (core_ rdg'))
      = node_prop_info_list (part_header core) /\
    edge_prop_info_list (part_header (core_ rdg'))
      = edge_prop_info_list (part_header core) /\
    part_prop_info_list (part_header (core_ rdg'))
      = part_prop_info_list (part_header core).
Proof.
  intros st0 core Hnode. subst st0 core.
  enter_DoStore st Htopo.
  rewrite Hnt, Hn, Hmeta, Hnode.
  eexists. split; [reflexivity|]. auto.
Qed.

Lemma DoStore_edge_failure command_line (st : RDG * World) nodes w1 e w2 :
  let st0 := snd (DoStore_topology st) in
  let core := core_ (fst st) in
  WriteTable (node_table core) (node_prop_info_list (part_header core))
    (dir (rdg_meta (snd st))) (snd st0) = (Success nodes, w1) ->
  WriteTable (edge_table core) (edge_prop_info_list (part_header core))
    (dir (rdg_meta (snd st))) w1 = (Failure e, w2) ->
  exists rdg',
    DoStore command_line st = (Failure e, (rdg', w2)) /\
    node_prop_info_list (part_header (core_ rdg')) = nodes /\
    edge_prop_info_list (part_header (core_ rdg'))
      = edge_prop_info_list (part_header core) /\
    part_prop_info_list (part_header (core_ rdg'))
      = part_prop_info_list (part_header core).
Proof.
  intros st0 core Hnode Hedge. subst st0 core.
  enter_DoStore st Htopo.
  rewrite Hnt, Hn, Hmeta, Hnode. simpl.
  rewrite Het, He, Hedge.
  eexists. split; [reflexivity|]. simpl. auto.
Qed.

Lemma DoStore_part_failure command_line (st : RDG * World)
    nodes w1 edges w2 e w3 :
  let st0 := snd (DoStore_topology st) in
  let core := core_ (fst st) in
  WriteTable (node_table core) (node_prop_info_list (part_header core))
    (dir (rdg_meta (snd st))) (snd st0) = (Success nodes, w1) ->
  WriteTable (edge_table core) (edge_prop_info_list (part_header core))
    (dir (rdg_meta (snd st))) w1 = (Success edges, w2) ->
  WritePartArrays (fst st0) (dir (rdg_meta (snd st))) w2 = (Failure e, w3) ->
  exists rdg',
    DoStore command_line st = (Failure e, (rdg', w3)) /\
    node_prop_info_list (part_header (core_ rdg')) = nodes /\
    edge_prop_info_list (part_header (core_ rdg')) = edges /\
    part_prop_info_list (part_header (core_ rdg'))
      = part_prop_info_list (part_header core).
Proof.
  intros st0 core Hnode Hedge Hpart. subst st0 core.
  enter_DoStore st Htopo.
  rewrite Hnt, Hn, Hmeta, Hnode. simpl.
  rewrite Het, He, Hedge. simpl.
  erewrite WritePartArrays_fields; [rewrite Hpart | done..].
  eexists. split; [reflexivity|]. simpl. auto.
Qed.

(** C5, as the code has it.  When the store of a column fails inside
    [WriteTable] (the frame cannot be initialised, or the serialiser
    reports a status that is not ok or throws, both of which are
    [ArrowError]), [WriteTable] returns that error; and a failure of
    [WriteTable] is always the failure of the store of one of its dirty
    columns.  [DoStore] returns the error.  The list of the table whose
    write failed is not replaced, and neither are the lists [DoStore] would
    have written after it; the lists written before it in the same call
    (node, then edge, then partition-boundary) hold their updated
    entries. *)
Theorem DoStore_failed_write_keeps_later_lists command_line (st : RDG * World) :
  let st0 := snd (DoStore_topology st) in
  let core := core_ (fst st) in
  let d := dir (rdg_meta (snd st)) in
  let h := part_header core in
  (forall table pre v post (w w1 : World) stored field_name col e,
     WriteTable table pre d w = (Success stored, w1) ->
     dirty v = true ->
     table !! length pre = Some (field_name, col) ->
     let w2 := set_seed (S (seed w1)) w1 in
     FileFrame_Init w2 = Failure e \/
     (FileFrame_Init w2 = Success tt /\ e = ArrowError /\
      (parquet_WriteTable (store_name field_name v) col = ParquetNotOk \/
       parquet_WriteTable (store_name field_name v) col = ParquetThrows)) ->
     WriteTable table (pre ++ v :: post) d w = (Failure e, w2)) /\
  (forall table properties w w' e,
     WriteTable table properties d w = (Failure e, w') ->
     exists j v field_name col w0,
       properties !! j = Some v /\ dirty v = true /\
       table !! j = Some (field_name, col) /\
       StoreArrowArrayAtName col d (store_name field_name v) w0
         = (Failure e, w')) /\
  (forall e w1,
     WriteTable (node_table core) (node_prop_info_list h) d (snd st0)
       = (Failure e, w1) ->
     exists rdg',
       DoStore command_line st = (Failure e, (rdg', w1)) /\
       node_prop_info_list (part_header (core_ rdg')) = node_prop_info_list h /\
       edge_prop_info_list (part_header (core_ rdg')) = edge_prop_info_list h /\
       part_prop_info_list (part_header (core_ rdg')) = part_prop_info_list h) /\
  (forall nodes w1 e w2,
     WriteTable (node_table core) (node_prop_info_list h) d (snd st0)
       = (Success nodes, w1) ->
     WriteTable (edge_table core) (edge_prop_info_list h) d w1
       = (Failure e, w2) ->
     exists rdg',
       DoStore command_line st = (Failure e, (rdg', w2)) /\
       node_prop_info_list (part_header (core_ rdg')) = nodes /\
       edge_prop_info_list (part_header (core_ rdg')) = edge_prop_info_list h /\
       part_prop_info_list (part_header (core_ rdg')) = part_prop_info_list h) /\
  (forall nodes w1 edges w2 e w3,
     WriteTable (node_table core) (node_prop_info_list h) d (snd st0)
       = (Success nodes, w1) ->
     WriteTable (edge_table core) (edge_prop_info_list h) d w1
       = (Success edges, w2) ->
     WritePartArrays (fst st0) d w2 = (Failure e, w3) ->
     exists rdg',
       DoStore command_line st = (Failure e, (rdg', w3)) /\
       node_prop_info_list (part_header (core_ rdg')) = nodes /\
       edge_prop_info_list (part_header (core_ rdg')) = edges /\
       part_prop_info_list (part_header (core_ rdg')) = part_prop_info_list h).
Proof.
  intros st0 core d h. split_and!.
  - intros table pre v post w w1 stored field_name col e.
    apply WriteTable_column_failure.
  - intros table properties w w' e. apply WriteTable_failure.
  - intros e w1. apply DoStore_node_failure.
  - intros nodes w1 e w2. apply DoStore_edge_failure.
  - intros nodes w1 edges w2 e w3. apply DoStore_part_failure.
Qed.






(** ** Partition-boundary columns *)

Lemma master_not_mirror (s : string) :
  starts_with "master_nodes" s = true -> starts_with "mirror_nodes" s = false.
Proof.
  unfold starts_with.
  destruct s as [|c1 [|c2 s]]; cbn [String.prefix]; try discriminate.
  - destruct (Ascii.ascii_dec "m"%char c1); reflexivity.
  - destruct (Ascii.ascii_dec "m"%char c1); [|reflexivity].
    destruct (Ascii.ascii_dec "a"%char c2); [|discriminate]. subst c2.
    destruct (Ascii.ascii_dec "i"%char "a"%char); [discriminate|reflexivity].
Qed.

Lemma l2g_not_prefixed :
  starts_with "mirror_nodes" "local_to_global_vector" = false /\
  starts_with "master_nodes" "local_to_global_vector" = false.
Proof. split; reflexivity. Qed.

(** C8. [AddPartitionMetadataArray] routes a table by the name of its first
    column: prefix [mirror_nodes] appends to the mirror-node sets, prefix
    [master_nodes] appends to the master-node sets, the exact name
    [local_to_global_vector] sets the local-to-global vector, any other name
    is [InvalidArgument] with the object unchanged; the core (node and edge
    tables, header) is never touched. *)
Theorem AddPartitionMetadataArray_routes (field_name : string)
    (col : ChunkedArray) (rest : Table) (r : RDG) :
  let table := (field_name, col) :: rest in
  (starts_with "mirror_nodes" field_name = true ->
     AddPartitionMetadataArray table r = (Success tt, AddMirrorNodes col r) /\
     mirror_nodes_ (AddMirrorNodes col r) = mirror_nodes_ r ++ [col]) /\
  (starts_with "master_nodes" field_name = true ->
     AddPartitionMetadataArray table r = (Success tt, AddMasterNodes col r) /\
     master_nodes_ (AddMasterNodes col r) = master_nodes_ r ++ [col]) /\
  (field_name = "local_to_global_vector" ->
     AddPartitionMetadataArray table r
       = (Success tt, set_local_to_global_vector col r) /\
     local_to_global_vector_ (set_local_to_global_vector col r) = Some col) /\
  (starts_with "mirror_nodes" field_name = false ->
   starts_with "master_nodes" field_name = false ->
   field_name <> "local_to_global_vector" ->
     AddPartitionMetadataArray table r = (Failure InvalidArgument, r)) /\
  (forall res r', AddPartitionMetadataArray table r = (res, r') ->
     core_ r' = core_ r).
Proof.
  intros table. unfold AddPartitionMetadataArray. simpl.
  repeat split.
  - rewrite H. reflexivity.
  - rewrite (master_not_mirror _ H), H. reflexivity.
  - subst field_name. destruct l2g_not_prefixed as [-> ->]. reflexivity.
  - intros Hmirror Hmaster Hname. rewrite Hmirror, Hmaster.
    destruct (String.eqb_spec field_name "local_to_global_vector");
      [contradiction | reflexivity].
  - intros res r'.
    destruct (starts_with "mirror_nodes" field_name);
      [|destruct (starts_with "master_nodes" field_name);
        [|destruct (String.eqb field_name "local_to_global_vector")]];
      unfold_monad; intros [= <- <-]; reflexivity.
Qed.

(** ** Load *)

Lemma AddTables_log uri properties add_fn (st : RDG * World) :
  exists tail,
    log (snd (snd (AddTables uri properties add_fn st)))
      = log (snd st) ++ tail.
Proof.
  revert st. induction properties as [|v rest IH]; intros [r w]; simpl.
  - exists []. unfold_monad. by rewrite app_nil_r.
  - unfold_monad. unfold LoadTable_call.
    destruct (LoadTable _ _ w) as [table|e|]; simpl; try (eexists; reflexivity).
    destruct (add_fn table r) as [[[]|e|] r1]; simpl; try (eexists; reflexivity).
    destruct (IH (r1, emit (EvLoadTable (name v) (Uri_Join uri (path v))) w))
      as [tail Htail].
    rewrite Htail. simpl. rewrite <- app_assoc. eexists; reflexivity.
Qed.

Lemma DoMake_log metadata_dir (st : RDG * World) :
  exists tail, log (snd (snd (DoMake metadata_dir st))) = log (snd st) ++ tail.
Proof.
  unfold DoMake.
  destruct (AddTables_log metadata_dir (node_prop_info_list (header_of st))
              core_AddNodeProperties st) as [t1 H1].
  destruct (AddTables _ _ core_AddNodeProperties st) as [node_result st1].
  simpl in H1.
  destruct node_result; simpl; try (eexists; eassumption).
  destruct (AddTables_log metadata_dir (edge_prop_info_list (header_of st1))
              core_AddEdgeProperties st1) as [t2 H2].
  destruct (AddTables _ _ core_AddEdgeProperties st1) as [edge_result st2].
  simpl in H2. rewrite H1 in H2. rewrite <- app_assoc in H2.
  destruct edge_result; simpl; try (eexists; eassumption).
  assert (Hfinish : forall st3 t3,
            log (snd st3) = log (snd st) ++ t3 ->
            exists tail,
              log (snd (snd
                ((let* t_path :=
                    gets (fun s => Uri_Join metadata_dir
                                     (topology_path (header_of s))) in
                  let* _ := Bind_topology (Uri_string t_path) in
                  on_fst (modify (set_rdg_dir metadata_dir))) st3)))
              = log (snd st) ++ tail).
  { intros st3 t3 H3. unfold Bind_topology. unfold_monad.
    destruct (FileView_Bind _ (snd st3)); simpl; rewrite H3, <- app_assoc;
      eexists; reflexivity. }
  destruct (part_prop_info_list (header_of st2)) as [|v parts] eqn:Hparts.
  - eapply Hfinish. eassumption.
  - destruct (AddTables_log metadata_dir (v :: parts)
                AddPartitionMetadataArray st2) as [t3 H3].
    destruct (AddTables _ (v :: parts) AddPartitionMetadataArray st2)
      as [part_result st3].
    simpl in H3. rewrite H2 in H3. rewrite <- app_assoc in H3.
    destruct part_result; simpl; try (eexists; eassumption).
    eapply Hfinish. eassumption.
Qed.

(** C7. A non-empty [RDGMeta] whose host count differs from the current
    number of hosts makes [RDG::Make] return [InvalidArgument] with nothing
    read or loaded; otherwise [Make] goes on to the load, whose first step
    is to read the partition header. *)
Theorem Make_host_count_check (meta : RDGMeta)
    (node_props edge_props : option (list string)) (w : World) :
  (RDGMeta_IsEmptyRDG meta = false -> num_hosts meta <> Comm_Num ->
     Make meta node_props edge_props w = (Failure InvalidArgument, w)) /\
  (RDGMeta_IsEmptyRDG meta = true \/ num_hosts meta = Comm_Num ->
     Make meta node_props edge_props w = Make_load meta node_props edge_props w /\
     exists tail,
       log (snd (Make meta node_props edge_props w))
         = log w ++ EvReadHeader (RDGMeta_PartitionFileName meta Comm_ID) :: tail).
Proof.
  unfold Make, host_count_differs. split.
  - intros Hempty Hhosts. rewrite Hempty.
    destruct (N.eqb_spec (num_hosts meta) Comm_Num); [contradiction|].
    reflexivity.
  - intros Hpass.
    assert (Hcheck : negb (RDGMeta_IsEmptyRDG meta)
                     && negb (N.eqb (num_hosts meta) Comm_Num) = false).
    { destruct Hpass as [-> | ->]; [reflexivity|].
      rewrite N.eqb_refl. apply andb_false_r. }
    rewrite Hcheck. split; [reflexivity|].
    unfold Make_load, RDGPartHeader_Make_call. unfold_monad.
    destruct (RDGPartHeader_Make _ w) as [header|e|]; simpl;
      try (exists []; reflexivity).
    destruct (RDGPartHeader_PrunePropsTo node_props edge_props header)
      as [pruned|e|]; simpl; try (exists []; reflexivity).
    match goal with
    | |- context [DoMake ?d ?st] =>
        destruct (DoMake_log d st) as [tail Htail];
        destruct (DoMake d st) as [[[]|e|] [rdg w']]
    end; simpl in *; rewrite Htail, <- app_assoc; eexists; reflexivity.
Qed.

(** A failed node or edge load is what [DoMake] returns. *)
Lemma DoMake_node_failure metadata_dir (st st1 : RDG * World) e :
  AddTables metadata_dir (node_prop_info_list (header_of st))
    core_AddNodeProperties st = (Failure e, st1) ->
  DoMake metadata_dir st = (Failure e, st1).
Proof. intros H. unfold DoMake. rewrite H. reflexivity. Qed.

Lemma DoMake_edge_failure metadata_dir (st st1 st2 : RDG * World) e :
  AddTables metadata_dir (node_prop_info_list (header_of st))
    core_AddNodeProperties st = (Success tt, st1) ->
  AddTables metadata_dir (edge_prop_info_list (header_of st1))
    core_AddEdgeProperties st1 = (Failure e, st2) ->
  DoMake metadata_dir st = (Failure e, st2).
Proof. intros H1 H2. unfold DoMake. rewrite H1. simpl. rewrite H2. reflexivity. Qed.

(** A failed partition-boundary load is not: the statement that handles it
    takes the error of [edge_result], which holds a value at that point. *)
Lemma DoMake_part_failure metadata_dir (st st1 st2 st3 : RDG * World) e :
  AddTables metadata_dir (node_prop_info_list (header_of st))
    core_AddNodeProperties st = (Success tt, st1) ->
  AddTables metadata_dir (edge_prop_info_list (header_of st1))
    core_AddEdgeProperties st1 = (Success tt, st2) ->
  part_prop_info_list (header_of st2) <> [] ->
  AddTables metadata_dir (part_prop_info_list (header_of st2))
    AddPartitionMetadataArray st2 = (Failure e, st3) ->
  DoMake metadata_dir st = (Fatal, st3).
Proof.
  intros H1 H2 Hne H3. unfold DoMake. rewrite H1. simpl. rewrite H2. simpl.
  destruct (part_prop_info_list (header_of st2)) as [|v parts];
    [contradiction|].
  rewrite H3. reflexivity.
Qed.

(** ** Adding properties *)

Lemma append_infos_node (columns : Table) (r : RDG) :
  let r' := append_infos AppendNodePropStorageInfo columns r in
  node_prop_info_list (part_header (core_ r'))
    = node_prop_info_list (part_header (core_ r))
        ++ map (fun c => new_PropStorageInfo (fst c)) columns /\
  edge_prop_info_list (part_header (core_ r'))
    = edge_prop_info_list (part_header (core_ r)) /\
  node_table (core_ r') = node_table (core_ r) /\
  edge_table (core_ r') = edge_table (core_ r).
Proof.
  revert r. induction columns as [|[field_name col] rest IH]; intros r; simpl.
  - rewrite app_nil_r. auto.
  - destruct (IH (update_header
                    (AppendNodePropStorageInfo (new_PropStorageInfo field_name)) r))
      as (Hn & He & Hnt & Het).
    rewrite Hn, He, Hnt, Het. simpl. rewrite <- app_assoc. auto.
Qed.

Lemma append_infos_edge (columns : Table) (r : RDG) :
  let r' := append_infos AppendEdgePropStorageInfo columns r in
  edge_prop_info_list (part_header (core_ r'))
    = edge_prop_info_list (part_header (core_ r))
        ++ map (fun c => new_PropStorageInfo (fst c)) columns /\
  node_prop_info_list (part_header (core_ r'))
    = node_prop_info_list (part_header (core_ r)) /\
  node_table (core_ r') = node_table (core_ r) /\
  edge_table (core_ r') = edge_table (core_ r).
Proof.
  revert r. induction columns as [|[field_name col] rest IH]; intros r; simpl.
  - rewrite app_nil_r. auto.
  - destruct (IH (update_header
                    (AppendEdgePropStorageInfo (new_PropStorageInfo field_name)) r))
      as (Hn & He & Hnt & Het).
    rewrite Hn, He, Hnt, Het. simpl. rewrite <- app_assoc. auto.
Qed.

Lemma added_for_new (table : Table) :
  added_for table (map (fun c => new_PropStorageInfo (fst c)) table).
Proof.
  unfold added_for, num_columns. rewrite length_map, map_map. simpl.
  split; [reflexivity|]. split; [reflexivity|].
  apply Forall_forall. intros v Hv. apply list_elem_of_In, in_map_iff in Hv.
  destruct Hv as (c & <- & _). reflexivity.
Qed.

(** [AddNodeProperties] and [AddEdgeProperties], step by step. *)
Lemma AddNodeProperties_run (table : Table) (r : RDG) :
  AddNodeProperties table r =
    match RDGCore_AddProperties (node_table (core_ r)) table with
    | Success t =>
        let r1 :=
          append_infos AppendNodePropStorageInfo table
            (set_core (set_node_table t (core_ r)) r) in
        if NDEBUG then (Success tt, r1)
        else if Nat.eqb (num_columns (node_table (core_ r1)))
                  (length (node_prop_info_list (part_header (core_ r1))))
             then (Success tt, r1) else (Fatal, r1)
    | Failure e => (Failure e, r)
    | Fatal => (Fatal, r)
    end.
Proof.
  unfold AddNodeProperties, core_AddNodeProperties, assert. unfold_monad.
  destruct (RDGCore_AddProperties _ table) as [t|e|]; try reflexivity.
  destruct NDEBUG; [reflexivity|]. by destruct (Nat.eqb _ _).
Qed.

Lemma AddEdgeProperties_run (table : Table) (r : RDG) :
  AddEdgeProperties table r =
    match RDGCore_AddProperties (edge_table (core_ r)) table with
    | Success t =>
        let r1 :=
          append_infos AppendEdgePropStorageInfo table
            (set_core (set_edge_table t (core_ r)) r) in
        if NDEBUG then (Success tt, r1)
        else if Nat.eqb (num_columns (edge_table (core_ r1)))
                  (length (edge_prop_info_list (part_header (core_ r1))))
             then (Success tt, r1) else (Fatal, r1)
    | Failure e => (Failure e, r)
    | Fatal => (Fatal, r)
    end.
Proof.
  unfold AddEdgeProperties, core_AddEdgeProperties, assert. unfold_monad.
  destruct (RDGCore_AddProperties _ table) as [t|e|]; try reflexivity.
  destruct NDEBUG; [reflexivity|]. by destruct (Nat.eqb _ _).
Qed.

(** What a successful call has done. *)
Lemma AddNodeProperties_success (table : Table) (r r' : RDG) :
  AddNodeProperties table r = (Success tt, r') ->
  node_prop_info_list (part_header (core_ r'))
    = node_prop_info_list (part_header (core_ r))
        ++ map (fun c => new_PropStorageInfo (fst c)) table /\
  edge_prop_info_list (part_header (core_ r'))
    = edge_prop_info_list (part_header (core_ r)) /\
  RDGCore_AddProperties (node_table (core_ r)) table
    = Success (node_table (core_ r')) /\
  edge_table (core_ r') = edge_table (core_ r) /\
  (NDEBUG = false ->
   num_columns (node_table (core_ r'))
     = length (node_prop_info_list (part_header (core_ r')))).
Proof.
  rewrite AddNodeProperties_run.
  destruct (RDGCore_AddProperties _ table) as [t|e|]; try discriminate.
  simpl.
  destruct (append_infos_node table (set_core (set_node_table t (core_ r)) r))
    as (Hn & He & Hnt & Het). simpl in *.
  destruct NDEBUG.
  - intros [= <-]. rewrite Hn, He, Hnt, Het. split_and!; done.
  - destruct (Nat.eqb _ _) eqn:Hassert; intros [= <-].
    rewrite Hn, He, Hnt, Het. split_and!; try done.
    intros _. apply Nat.eqb_eq in Hassert. by rewrite Hn, Hnt in Hassert.
Qed.

Lemma AddEdgeProperties_success (table : Table) (r r' : RDG) :
  AddEdgeProperties table r = (Success tt, r') ->
  edge_prop_info_list (part_header (core_ r'))
    = edge_prop_info_list (part_header (core_ r))
        ++ map (fun c => new_PropStorageInfo (fst c)) table /\
  node_prop_info_list (part_header (core_ r'))
    = node_prop_info_list (part_header (core_ r)) /\
  RDGCore_AddProperties (edge_table (core_ r)) table
    = Success (edge_table (core_ r')) /\
  node_table (core_ r') = node_table (core_ r) /\
  (NDEBUG = false ->
   num_columns (edge_table (core_ r'))
     = length (edge_prop_info_list (part_header (core_ r')))).
Proof.
  rewrite AddEdgeProperties_run.
  destruct (RDGCore_AddProperties _ table) as [t|e|]; try discriminate.
  simpl.
  destruct (append_infos_edge table (set_core (set_edge_table t (core_ r)) r))
    as (He & Hn & Hnt & Het). simpl in *.
  destruct NDEBUG.
  - intros [= <-]. rewrite Hn, He, Hnt, Het. split_and!; done.
  - destruct (Nat.eqb _ _) eqn:Hassert; intros [= <-].
    rewrite Hn, He, Hnt, Het. split_and!; try done.
    intros _. apply Nat.eqb_eq in Hassert. by rewrite He, Het in Hassert.
Qed.

(** With or without assertions, the call succeeds and the counts agree
    after it when they agreed before it and the core added exactly the
    columns of [table]. *)
Lemma AddNodeProperties_succeeds (table t : Table) (r : RDG) :
  RDGCore_AddProperties (node_table (core_ r)) table = Success t ->
  num_columns (node_table (core_ r))
    = length (node_prop_info_list (part_header (core_ r))) ->
  num_columns t = num_columns (node_table (core_ r)) + num_columns table ->
  exists r',
    AddNodeProperties table r = (Success tt, r') /\
    node_table (core_ r') = t /\
    num_columns (node_table (core_ r'))
      = length (node_prop_info_list (part_header (core_ r'))).
Proof.
  intros Hadd Hinv Hcount. rewrite AddNodeProperties_run, Hadd. simpl.
  destruct (append_infos_node table (set_core (set_node_table t (core_ r)) r))
    as (Hn & _ & Hnt & _). simpl in *.
  assert (Heq : num_columns
                  (node_table (core_ (append_infos AppendNodePropStorageInfo
                     table (set_core (set_node_table t (core_ r)) r))))
                = length (node_prop_info_list (part_header (core_
                    (append_infos AppendNodePropStorageInfo table
                       (set_core (set_node_table t (core_ r)) r)))))).
  { rewrite Hn, Hnt, length_app, length_map. unfold num_columns in *. lia. }
  destruct NDEBUG.
  - eexists. split_and!; [reflexivity | done | done].
  - rewrite Heq, Nat.eqb_refl. eexists. split_and!; [reflexivity | done | done].
Qed.

Lemma AddEdgeProperties_succeeds (table t : Table) (r : RDG) :
  RDGCore_AddProperties (edge_table (core_ r)) table = Success t ->
  num_columns (edge_table (core_ r))
    = length (edge_prop_info_list (part_header (core_ r))) ->
  num_columns t = num_columns (edge_table (core_ r)) + num_columns table ->
  exists r',
    AddEdgeProperties table r = (Success tt, r') /\
    edge_table (core_ r') = t /\
    num_columns (edge_table (core_ r'))
      = length (edge_prop_info_list (part_header (core_ r'))).
Proof.
  intros Hadd Hinv Hcount. rewrite AddEdgeProperties_run, Hadd. simpl.
  destruct (append_infos_edge table (set_core (set_edge_table t (core_ r)) r))
    as (He & _ & _ & Het). simpl in *.
  assert (Heq : num_columns
                  (edge_table (core_ (append_infos AppendEdgePropStorageInfo
                     table (set_core (set_edge_table t (core_ r)) r))))
                = length (edge_prop_info_list (part_header (core_
                    (append_infos AppendEdgePropStorageInfo table
                       (set_core (set_edge_table t (core_ r)) r)))))).
  { rewrite He, Het, length_app, length_map. unfold num_columns in *. lia. }
  destruct NDEBUG.
  - eexists. split_and!; [reflexivity | done | done].
  - rewrite Heq, Nat.eqb_refl. eexists. split_and!; [reflexivity | done | done].
Qed.

(** A new entry is dirty exactly when the persist flag defaults to set. *)
Lemma new_entries_dirty (table : Table) :
  List.filter dirty (map (fun c => new_PropStorageInfo (fst c)) table)
    = if PropStorageInfo_default_persist
      then map (fun c => new_PropStorageInfo (fst c)) table
      else [].
Proof.
  induction table as [|[field_name col] rest IH]; simpl.
  - by destruct PropStorageInfo_default_persist.
  - unfold dirty at 1. simpl. rewrite IH.
    by destruct PropStorageInfo_default_persist.
Qed.

(** What the next [WriteTable] queues for a list that ends in new
    entries: a write for each of them when the persist flag defaults to
    set, none otherwise. *)
Lemma WriteTable_new_entries (table stored : Table)
    (old : list PropStorageInfo) d (w w' : World) next_properties :
  WriteTable stored
    (old ++ map (fun c => new_PropStorageInfo (fst c)) table) d w
    = (Success next_properties, w') ->
  exists news,
    desc w' = desc w ++ news /\
    length news
      = length (List.filter dirty old)
        + (if PropStorageInfo_default_persist then num_columns table else 0).
Proof.
  intros Hwrite.
  apply WriteTable_success in Hwrite as (news & Hdesc & Hlen & _).
  exists news. split; [done|].
  rewrite Hlen, List.filter_app, length_app, new_entries_dirty.
  unfold num_columns. destruct PropStorageInfo_default_persist; simpl;
    by rewrite ?length_map.
Qed.

(** C10, as the code has it.  A successful [AddNodeProperties] (resp.
    [AddEdgeProperties]) appends one storage-info entry per added column,
    named after the column, with an empty path and the persist flag at its
    default, and leaves the other list alone.  The call succeeds, and the
    node (resp. edge) table has as many columns as the header's list has
    entries, when that was so before the call and the core added exactly
    the columns of [table]; in a build with assertions the counts agree
    after every successful call.  When the table add fails, the call fails
    with the object, and so the list, unchanged.  An empty path does not
    by itself force a write: the next [WriteTable] stores the new entries
    when the persist flag defaults to set, and none of them when it does
    not. *)
Theorem AddProperties_appends_storage_info (table : Table) (r : RDG) :
  let new_entries := map (fun c => new_PropStorageInfo (fst c)) table in
  let h := part_header (core_ r) in
  (forall r', AddNodeProperties table r = (Success tt, r') ->
     node_prop_info_list (part_header (core_ r'))
       = node_prop_info_list h ++ new_entries /\
     edge_prop_info_list (part_header (core_ r')) = edge_prop_info_list h /\
     RDGCore_AddProperties (node_table (core_ r)) table
       = Success (node_table (core_ r')) /\
     (NDEBUG = false ->
      num_columns (node_table (core_ r'))
        = length (node_prop_info_list (part_header (core_ r'))))) /\
  (forall t,
     RDGCore_AddProperties (node_table (core_ r)) table = Success t ->
     num_columns (node_table (core_ r)) = length (node_prop_info_list h) ->
     num_columns t = num_columns (node_table (core_ r)) + num_columns table ->
     exists r',
       AddNodeProperties table r = (Success tt, r') /\
       node_table (core_ r') = t /\
       num_columns (node_table (core_ r'))
         = length (node_prop_info_list (part_header (core_ r')))) /\
  (forall e, RDGCore_AddProperties (node_table (core_ r)) table = Failure e ->
     AddNodeProperties table r = (Failure e, r)) /\
  (forall r', AddEdgeProperties table r = (Success tt, r') ->
     edge_prop_info_list (part_header (core_ r'))
       = edge_prop_info_list h ++ new_entries /\
     node_prop_info_list (part_header (core_ r')) = node_prop_info_list h /\
     RDGCore_AddProperties (edge_table (core_ r)) table
       = Success (edge_table (core_ r')) /\
     (NDEBUG = false ->
      num_columns (edge_table (core_ r'))
        = length (edge_prop_info_list (part_header (core_ r'))))) /\
  (forall t,
     RDGCore_AddProperties (edge_table (core_ r)) table = Success t ->
     num_columns (edge_table (core_ r)) = length (edge_prop_info_list h) ->
     num_columns t = num_columns (edge_table (core_ r)) + num_columns table ->
     exists r',
       AddEdgeProperties table r = (Success tt, r') /\
       edge_table (core_ r') = t /\
       num_columns (edge_table (core_ r'))
         = length (edge_prop_info_list (part_header (core_ r')))) /\
  (forall e, RDGCore_AddProperties (edge_table (core_ r)) table = Failure e ->
     AddEdgeProperties table r = (Failure e, r)) /\
  added_for table new_entries /\
  Forall (fun v => persist v = PropStorageInfo_default_persist /\
                   dirty v = PropStorageInfo_default_persist) new_entries /\
  (forall stored old d (w w' : World) next_properties,
     WriteTable stored (old ++ new_entries) d w = (Success next_properties, w') ->
     exists news,
       desc w' = desc w ++ news /\
       length news
         = length (List.filter dirty old)
           + (if PropStorageInfo_default_persist
              then num_columns table else 0)).
Proof.
  intros new_entries h. split_and!.
  - intros r' Hadd.
    apply AddNodeProperties_success in Hadd as (Hn & He & Hcore & _ & Hcount).
    done.
  - intros t. apply AddNodeProperties_succeeds.
  - intros e Hadd. by rewrite AddNodeProperties_run, Hadd.
  - intros r' Hadd.
    apply AddEdgeProperties_success in Hadd as (He & Hn & Hcore & _ & Hcount).
    done.
  - intros t. apply AddEdgeProperties_succeeds.
  - intros e Hadd. by rewrite AddEdgeProperties_run, Hadd.
  - apply added_for_new.
  - apply Forall_forall. intros v Hv.
    apply list_elem_of_In, in_map_iff in Hv as (c & <- & _).
    unfold dirty. simpl. split; [done | apply andb_true_r].
  - intros stored old d w w' next_properties. apply WriteTable_new_entries.
Qed.

End Properties.

(** ** The typed graph view *)

Section TypedView.
Context {PropertyFileGraph NodeView EdgeView : Type}.
Variable MakeNodePropertyViews :
  PropertyFileGraph -> list string -> Result NodeView.
Variable MakeEdgePropertyViews :
  PropertyFileGraph -> list string -> Result EdgeView.

Local Abbreviation Make :=
  (PropertyGraph.Make MakeNodePropertyViews MakeEdgePropertyViews).

(** C9. [PropertyGraph::Make] returns the error of the node binding when
    that fails, the error of the edge binding when the node views bound and
    that fails, and a graph exactly when both bound; the graph then holds
    the two views. *)
Theorem PropertyGraph_Make_binding (pfg : PropertyFileGraph)
    (node_properties edge_properties : list string) :
  (forall e, MakeNodePropertyViews pfg node_properties = Failure e ->
     Make pfg node_properties edge_properties = Failure e) /\
  (forall node_view e,
     MakeNodePropertyViews pfg node_properties = Success node_view ->
     MakeEdgePropertyViews pfg edge_properties = Failure e ->
     Make pfg node_properties edge_properties = Failure e) /\
  (forall g, Make pfg node_properties edge_properties = Success g <->
     exists node_view edge_view,
       MakeNodePropertyViews pfg node_properties = Success node_view /\
       MakeEdgePropertyViews pfg edge_properties = Success edge_view /\
       g = PropertyGraph.mkPropertyGraph pfg node_view edge_view).
Proof.
  unfold PropertyGraph.Make. repeat split.
  - intros e ->. reflexivity.
  - intros node_view e -> ->. reflexivity.
  - destruct (MakeNodePropertyViews pfg node_properties) as [nv|e|];
      try discriminate.
    destruct (MakeEdgePropertyViews pfg edge_properties) as [ev|e|];
      try discriminate.
    intros [= <-]. eauto.
  - intros (nv & ev & -> & -> & ->). reflexivity.
Qed.

End TypedView.


(** C1. The handle is at version 3; the queued writes succeed, the naming
    service rejects the update, the metadata file is written.  [CommitRDG]
    reports success and the cached metadata is at version 4. *)
Theorem CommitRDG_update_failure_not_returned :
  let Sv := ex_services (Success tt) (Failure (OtherError 1))
              (ex_header [] [] [] "") in
  let w := ex_world 3 in
  NS_Update ["graph"] 3 (NextVersion (rdg_meta w) Comm_Num 0 false []) w
    = Failure (OtherError 1) /\
  fst (CommitRDG 0 false [] w) = Success tt /\
  version (rdg_meta (snd (CommitRDG 0 false [] w))) = 4%N /\
  EvNSUpdate ["graph"] 3 (NextVersion (rdg_meta w) Comm_Num 0 false [])
    ∈ log (snd (CommitRDG 0 false [] w)).
Proof.
  repeat split; try reflexivity.
  vm_compute. apply list_elem_of_In. simpl. auto.
Qed.

Lemma CommitRDG_finish_failure_witness :
  let Sv := ex_services (Failure (OtherError 5)) (Success tt)
              (ex_header [] [] [] "") in
  WriteGroup_Finish (ex_world 3) = Failure (OtherError 5) /\
  exists w',
    CommitRDG 0 false [] (ex_world 3) = (Failure (OtherError 5), w') /\
    rdg_meta w' = rdg_meta (ex_world 3) /\
    log w' = log (ex_world 3) ++ [EvFinish (desc (ex_world 3))].
Proof.
  intros Sv. split; [reflexivity|].
  apply (CommitRDG_finish_failure (Sv := Sv) 0%N false [] (ex_world 3)).
  reflexivity.
Defined.

(** C6. The stored header lists one partition-boundary column, named
    [bogus]; node and edge lists are empty.  Loading it fails with
    [InvalidArgument], and [DoMake] does not return that error. *)
Theorem DoMake_partition_failure_not_returned :
  let hdr := ex_header [] [] [mkPropStorageInfo "bogus" "f" true] "topo" in
  let Sv := ex_services (Success tt) (Success tt) hdr in
  let st := (RDG_of_header hdr, ex_world 3) in
  fst (AddTables ["graph"] (part_prop_info_list hdr)
         AddPartitionMetadataArray st) = Failure InvalidArgument /\
  fst (DoMake ["graph"] st) = Fatal /\
  fst (DoMake ["graph"] st) <> Failure InvalidArgument /\
  fst (Make (ex_meta 3 1) None None (ex_world 3)) <> Failure InvalidArgument.
Proof. repeat split; try reflexivity; vm_compute; discriminate. Qed.

Lemma AddPartitionMetadataArray_routes_witness :
  starts_with "mirror_nodes" "mirror_nodes_0" = true /\
  AddPartitionMetadataArray [("mirror_nodes_0", [7%Z])]
      (ex_rdg [] [] (ex_header [] [] [] "") [])
    = (Success tt, AddMirrorNodes [7%Z] (ex_rdg [] [] (ex_header [] [] [] "") [])).
Proof.
  split; [reflexivity|].
  apply (AddPartitionMetadataArray_routes (P := ex_platform)
           "mirror_nodes_0" [7%Z] [] (ex_rdg [] [] (ex_header [] [] [] "") [])).
  reflexivity.
Defined.

Lemma Make_host_count_check_witness :
  let Sv := ex_services (Success tt) (Success tt) (ex_header [] [] [] "topo") in
  (RDGMeta_IsEmptyRDG (ex_meta 3 2) = false /\ num_hosts (ex_meta 3 2) <> Comm_Num) /\
  Make (ex_meta 3 2) None None (ex_world 3) = (Failure InvalidArgument, ex_world 3).
Proof.
  intros Sv. split; [split; [reflexivity | discriminate]|].
  apply (Make_host_count_check (Sv := Sv) (ex_meta 3 2) None None (ex_world 3));
    [reflexivity | discriminate].
Defined.

Lemma PropertyGraph_Make_binding_witness :
  ex_bind (fst ex_pfg) [ex_Int64] ["rank"] = Failure (OtherError 2) /\
  PropertyGraph.Make (fun g => ex_bind (fst g) [ex_Int64])
      (fun g => ex_bind (snd g) [ex_Int64]) ex_pfg ["rank"] ["weight"]
    = Failure (OtherError 2).
Proof.
  split; [reflexivity|].
  apply (PropertyGraph_Make_binding (fun g => ex_bind (fst g) [ex_Int64])
           (fun g => ex_bind (snd g) [ex_Int64]) ex_pfg ["rank"] ["weight"]).
  reflexivity.
Defined.

Lemma AddProperties_appends_storage_info_witness :
  let Sv := ex_services (Success tt) (Success tt) (ex_header [] [] [] "") in
  let r := ex_rdg [] [] (ex_header [] [] [] "") [] in
  let table : Table := [("age", [41%Z]); ("rank", [2%Z])] in
  let entries :=
    [mkPropStorageInfo "age" "" false; mkPropStorageInfo "rank" "" false] in
  (exists r',
     AddNodeProperties table r = (Success tt, r') /\
     node_table (core_ r') = table /\
     num_columns (node_table (core_ r'))
       = length (node_prop_info_list (part_header (core_ r'))) /\
     node_prop_info_list (part_header (core_ r')) = entries) /\
  (exists r',
     AddEdgeProperties table r = (Success tt, r') /\
     edge_table (core_ r') = table /\
     num_columns (edge_table (core_ r'))
       = length (edge_prop_info_list (part_header (core_ r'))) /\
     edge_prop_info_list (part_header (core_ r')) = entries).
Proof.
  intros Sv r table entries.
  destruct (AddProperties_appends_storage_info (Sv := Sv) table r)
    as (Hnode & Hnode_ok & _ & Hedge & Hedge_ok & _).
  split.
  - destruct (Hnode_ok table eq_refl eq_refl eq_refl) as (r' & Hrun & Ht & Hc).
    exists r'. split_and!; try done.
    by destruct (Hnode r' Hrun) as (-> & _).
  - destruct (Hedge_ok table eq_refl eq_refl eq_refl) as (r' & Hrun & Ht & Hc).
    exists r'. split_and!; try done.
    by destruct (Hedge r' Hrun) as (-> & _).
Defined.

(** C10.  A node column is added to an empty RDG and the RDG is stored.
    The call that adds it succeeds and appends an entry with an empty path;
    the store succeeds too, and flushes the topology and the header only:
    the column is not written, and its entry still has an empty path. *)
Lemma AddNodeProperties_entry_not_written :
  let Sv := ex_services (Success tt) (Success tt) (ex_header [] [] [] "") in
  let r := ex_rdg [] [] (ex_header [] [] [] "") [] in
  let added := AddNodeProperties [("age", [41%Z])] r in
  let stored := Store "first" None (snd added, ex_world 3) in
  fst added = Success tt /\
  node_prop_info_list (part_header (core_ (snd added)))
    = [mkPropStorageInfo "age" "" false] /\
  fst stored = Success tt /\
  EvFinish [mkPendingWrite "graph/topology-0" [];
            mkPendingWrite "part_header" []] ∈ log (snd (snd stored)) /\
  node_prop_info_list (header_of (snd stored))
    = [mkPropStorageInfo "age" "" false].
Proof.
  split_and!; try reflexivity.
  vm_compute. apply list_elem_of_In. simpl. auto.
Qed.

(** ** Store on the concrete platform *)

Lemma ex_BaseName_nonempty (u : list string) (prefix : string) (sd : nat) :
  Uri_BaseName (Uri_RandFile u prefix sd) <> "".
Proof.
  simpl. rewrite List.last_last. by destruct prefix.
Qed.

Lemma WriteTable_stores_dirty_columns_witness :
  let Sv := ex_services (Success tt) (Success tt) (ex_header [] [] [] "") in
  let table : Table := [("age", [41%Z]); ("rank", [2%Z])] in
  let properties :=
    [mkPropStorageInfo "age" "age-old" true; mkPropStorageInfo "" "" true] in
  let w' := snd (WriteTable table properties ["graph"] (ex_world 3)) in
  let next_properties :=
    [mkPropStorageInfo "age" "age-old" true;
     mkPropStorageInfo "" "rank-0" true] in
  WriteTable table properties ["graph"] (ex_world 3)
    = (Success next_properties, w') /\
  exists news,
    desc w' = desc (ex_world 3) ++ news /\
    length news = length (List.filter dirty properties) /\
    length next_properties = length properties /\
    forall j v, properties !! j = Some v ->
      (dirty v = false -> next_properties !! j = Some v) /\
      (dirty v = true ->
         exists field_name col buffer,
           table !! j = Some (field_name, col) /\
           parquet_WriteTable (store_name field_name v) col = ParquetOk buffer /\
           let u := Uri_RandFile ["graph"] (store_name field_name v)
                      (seed (ex_world 3) + dirty_before j properties) in
           news !! dirty_before j properties
             = Some (mkPendingWrite (Uri_string u) buffer) /\
           next_properties !! j
             = Some {| name := name v; path := Uri_BaseName u;
                       persist := persist v |}).
Proof.
  intros Sv table properties w' next_properties. split; [reflexivity|].
  apply (WriteTable_stores_dirty_columns (Sv := Sv) table properties ["graph"]
           (ex_world 3) w' next_properties).
  reflexivity.
Defined.



(** C5.  The node table has a dirty column that stores, the edge table a
    dirty column whose serialisation fails.  [DoStore] returns the error,
    and the header's node list is no longer what it was before the call. *)
Lemma DoStore_edge_failure_keeps_node_update :
  let Sv := ex_services (Success tt) (Success tt) (ex_header [] [] [] "") in
  let rdg :=
    ex_rdg [("age", [41%Z])] [("bad", [2%Z])]
      (ex_header [mkPropStorageInfo "age" "" true]
         [mkPropStorageInfo "bad" "" true] [] "") [] in
  let result := DoStore "first" (rdg, ex_world 3) in
  fst result = Failure ArrowError /\
  node_prop_info_list (header_of (rdg, ex_world 3))
    = [mkPropStorageInfo "age" "" true] /\
  node_prop_info_list (header_of (snd result))
    = [mkPropStorageInfo "age" "age-1" true] /\
  node_prop_info_list (header_of (snd result))
    <> node_prop_info_list (header_of (rdg, ex_world 3)).
Proof. split_and!; try reflexivity. vm_compute. discriminate. Qed.

Lemma DoStore_failed_write_keeps_later_lists_witness :
  let Sv := ex_services (Success tt) (Success tt) (ex_header [] [] [] "") in
  let bad := mkPropStorageInfo "bad" "" true in
  let rdg :=
    ex_rdg [("age", [41%Z])] [("bad", [2%Z])]
      (ex_header [mkPropStorageInfo "age" "" true] [bad] [] "") [] in
  let st := (rdg, ex_world 3) in
  let st0 := snd (DoStore_topology st) in
  let nodes := [mkPropStorageInfo "age" "age-1" true] in
  let w1 := snd (WriteTable (node_table (core_ rdg))
                   (node_prop_info_list (part_header (core_ rdg)))
                   ["graph"] (snd st0)) in
  let w2 := set_seed (S (seed w1)) w1 in
  (WriteTable (node_table (core_ rdg))
     (node_prop_info_list (part_header (core_ rdg))) ["graph"] (snd st0)
     = (Success nodes, w1) /\
   WriteTable (edge_table (core_ rdg)) [] ["graph"] w1 = (Success [], w1) /\
   dirty bad = true /\
   edge_table (core_ rdg) !! 0 = Some ("bad", [2%Z]) /\
   FileFrame_Init w2 = Success tt /\
   parquet_WriteTable (store_name "bad" bad) [2%Z] = ParquetNotOk) /\
  WriteTable (edge_table (core_ rdg)) [bad] ["graph"] w1
    = (Failure ArrowError, w2) /\
  exists rdg',
    DoStore "first" st = (Failure ArrowError, (rdg', w2)) /\
    node_prop_info_list (part_header (core_ rdg')) = nodes /\
    edge_prop_info_list (part_header (core_ rdg'))
      = edge_prop_info_list (part_header (core_ rdg)) /\
    part_prop_info_list (part_header (core_ rdg'))
      = part_prop_info_list (part_header (core_ rdg)).
Proof.
  intros Sv bad rdg st st0 nodes w1 w2.
  destruct (DoStore_failed_write_keeps_later_lists (Sv := Sv) "first" st)
    as (Hcolumn & _ & _ & Hedge & _).
  assert (Hfails : WriteTable (edge_table (core_ rdg)) [bad] ["graph"] w1
                   = (Failure ArrowError, w2)).
  { apply (Hcolumn (edge_table (core_ rdg)) [] bad [] w1 w1 [] "bad" [2%Z]
             ArrowError); try reflexivity.
    right. split_and!; try reflexivity. by left. }
  split; [split_and!; reflexivity|].
  split; [exact Hfails|].
  apply (Hedge nodes w1 ArrowError w2); [reflexivity | exact Hfails].
Defined.

(** * Further properties *)

Section Further.
Context {P : Platform} {Sv : Services}.

(** ** Column storage, whatever the outcome *)

(** A store draws one file name, and touches nothing but the write group,
    to which it adds one write when it succeeds and none otherwise. *)
Lemma StoreArrowArrayAtName_frame array d column_name (w w' : World) res :
  StoreArrowArrayAtName array d column_name w = (res, w') ->
  rdg_meta w' = rdg_meta w /\ log w' = log w /\ seed w' = S (seed w) /\
  exists news,
    desc w' = desc w ++ news /\
    length news = (if is_ok res then 1 else 0).
Proof.
  unfold StoreArrowArrayAtName, DoStoreArrowArrayAtName.
  destruct (FileFrame_Init _) as [[]|e|];
    [destruct (parquet_WriteTable column_name array) as [buffer| |]|..];
    intros [= <- <-]; simpl; split_and!; try done;
    try (exists []; by rewrite app_nil_r).
  eexists [_]. done.
Qed.

(** X1. A store that fails queues nothing, though it has drawn a file
    name; its error is that of the frame's initialisation, or [ArrowError]
    when the serialiser reports a status that is not ok or throws. *)
Theorem StoreArrowArrayAtName_failure array d column_name (w w' : World) e :
  StoreArrowArrayAtName array d column_name w = (Failure e, w') ->
  desc w' = desc w /\ seed w' = S (seed w) /\
  rdg_meta w' = rdg_meta w /\ log w' = log w /\
  (FileFrame_Init (set_seed (S (seed w)) w) = Failure e \/
   e = ArrowError /\
   (parquet_WriteTable column_name array = ParquetNotOk \/
    parquet_WriteTable column_name array = ParquetThrows)).
Proof.
  unfold StoreArrowArrayAtName, DoStoreArrowArrayAtName.
  destruct (FileFrame_Init _) as [[]|e0|] eqn:Hinit;
    [destruct (parquet_WriteTable column_name array) as [buffer| |]|..];
    intros [= <- <-]; simpl; split_and!; auto.
Qed.

Lemma WriteTable_store_frame table d properties :
  forall i (w w' : World) res,
  WriteTable_store table d i properties w = (res, w') ->
  rdg_meta w' = rdg_meta w /\ log w' = log w /\
  exists news,
    desc w' = desc w ++ news /\
    length news <= length (List.filter dirty properties) /\
    (is_ok res = false -> length news < length (List.filter dirty properties)).
Proof.
  induction properties as [|v rest IH]; intros i w w' res; simpl.
  - unfold ret. intros [= <- <-]. split_and!; try done.
    exists []. rewrite app_nil_r. simpl. split_and!; done.
  - rewrite skip_test. destruct (dirty v) eqn:Hv; simpl; [|apply IH].
    destruct (table !! i) as [[field_name col]|] eqn:Hcol.
    + unfold bind at 1.
      destruct (StoreArrowArrayAtName col d (store_name field_name v) w)
        as [stored w1] eqn:Hstore.
      apply StoreArrowArrayAtName_frame in Hstore
        as (Hm1 & Hl1 & Hs1 & n1 & Hd1 & Hn1).
      destruct stored as [stored|e|]; simpl in Hn1.
      * unfold bind at 1.
        destruct (WriteTable_store table d (S i) rest w1)
          as [more w2] eqn:Hrest.
        apply IH in Hrest as (Hm2 & Hl2 & n2 & Hd2 & Hle & Hlt).
        assert (exists news : list PendingWrite,
                  desc w2 = desc w ++ news /\
                  length news = S (length n2)) as (news & Hd & Hn).
        { exists (n1 ++ n2). rewrite Hd2, Hd1, <- app_assoc, length_app.
          split; [done | lia]. }
        destruct more as [paths|e|]; unfold ret; intros [= <- <-];
          (split_and!; [congruence | congruence |]);
          exists news; simpl in *; split_and!; try done; try lia;
          intros _; specialize (Hlt eq_refl); lia.
      * intros [= <- <-]. split_and!; try done.
        destruct n1; [|discriminate]. exists []. rewrite Hd1. simpl.
        split_and!; try done; lia.
      * intros [= <- <-]. split_and!; try done.
        destruct n1; [|discriminate]. exists []. rewrite Hd1. simpl.
        split_and!; try done; lia.
    + unfold fatal. intros [= <- <-]. split_and!; try done.
      exists []. rewrite app_nil_r. simpl. split_and!; try done; lia.
Qed.

(** Whatever its outcome, [WriteTable] changes neither the handle's
    cached metadata nor the event log: it only adds to the write group, at
    most one write per dirty entry.  When it returns no list it has queued
    strictly fewer, and the writes queued for the columns before the one
    that failed stay queued. *)
Lemma WriteTable_frame table properties d (w w' : World) res :
  WriteTable table properties d w = (res, w') ->
  rdg_meta w' = rdg_meta w /\ log w' = log w /\
  exists news,
    desc w' = desc w ++ news /\
    length news <= length (List.filter dirty properties) /\
    (is_ok res = false -> length news < length (List.filter dirty properties)).
Proof.
  unfold WriteTable. unfold bind at 1.
  destruct (WriteTable_store table d 0 properties w)
    as [stored w1] eqn:Hstore.
  pose proof Hstore as Hok.
  apply WriteTable_store_frame in Hstore as (Hm & Hl & news & Hd & Hle & Hlt).
  destruct stored as [next_paths|e|]; simpl in *.
  - destruct next_paths as [|p it].
    + unfold ret. intros [= <- <-]. split_and!; try done.
      exists news. split_and!; done.
    + apply WriteTable_store_success in Hok as (Hlen & _).
      destruct (assign_paths_spec properties (p :: it) Hlen) as (r & -> & _).
      unfold ret. intros [= <- <-]. split_and!; try done.
      exists news. split_and!; done.
  - intros [= <- <-]. split_and!; try done. exists news. split_and!; done.
  - intros [= <- <-]. split_and!; try done. exists news. split_and!; done.
Qed.


Lemma WriteTable_store_returns table d properties :
  (forall w, FileFrame_Init w = Success tt) ->
  forall i (w : World),
  (forall j v, properties !! j = Some v -> dirty v = true ->
     exists field_name col buffer,
       table !! (i + j) = Some (field_name, col) /\
       parquet_WriteTable (store_name field_name v) col = ParquetOk buffer) ->
  exists next_paths w',
    WriteTable_store table d i properties w = (Success next_paths, w').
Proof.
  intros Hinit.
  induction properties as [|v rest IH]; intros i w Hcols; simpl.
  - unfold ret. eauto.
  - rewrite skip_test. destruct (dirty v) eqn:Hv; simpl.
    + destruct (Hcols 0 v eq_refl Hv) as (fn & col & buffer & Ht & Hb).
      rewrite Nat.add_0_r in Ht. rewrite Ht.
      unfold bind at 1.
      unfold StoreArrowArrayAtName, DoStoreArrowArrayAtName.
      rewrite Hinit, Hb.
      destruct (IH (S i)
                  (set_desc (desc (set_seed (S (seed w)) w) ++
                     [mkPendingWrite
                        (Uri_string (Uri_RandFile d (store_name fn v) (seed w)))
                        buffer]) (set_seed (S (seed w)) w)))
        as (paths & w' & Hrest).
      { intros j v' Hj Hv'. rewrite Nat.add_succ_comm. by apply (Hcols (S j)). }
      unfold bind. rewrite Hrest. unfold ret. eauto.
    + apply IH. intros j v' Hj Hv'. rewrite Nat.add_succ_comm.
      by apply (Hcols (S j)).
Qed.

(** X3. [WriteTable] returns a list whenever frames initialise and every
    dirty entry has, at its own index, a column of the table that
    serialises. *)
Theorem WriteTable_returns table properties d (w : World) :
  (forall w0, FileFrame_Init w0 = Success tt) ->
  (forall j v, properties !! j = Some v -> dirty v = true ->
     exists field_name col buffer,
       table !! j = Some (field_name, col) /\
       parquet_WriteTable (store_name field_name v) col = ParquetOk buffer) ->
  exists next_properties w',
    WriteTable table properties d w = (Success next_properties, w').
Proof.
  intros Hinit Hcols.
  destruct (WriteTable_store_returns table d properties Hinit 0 w Hcols)
    as (next_paths & w' & Hstore).
  unfold WriteTable. unfold bind at 1. rewrite Hstore.
  destruct next_paths as [|p it]; [unfold ret; eauto|].
  apply WriteTable_store_success in Hstore as (Hlen & _).
  destruct (assign_paths_spec properties (p :: it) Hlen) as (r & -> & _).
  unfold ret. eauto.
Qed.

(** ** Partition-boundary arrays *)

Lemma WritePartArrays_loop_success prop_name d arrays :
  forall i (w w' : World) infos,
  WritePartArrays_loop prop_name d i arrays w = (Success infos, w') ->
  infos = imap (fun k _ => part_entry d (seed w) (prop_name (i + k)) k) arrays /\
  seed w' = seed w + length arrays /\
  exists news,
    desc w' = desc w ++ news /\
    map pw_path news
      = imap (fun k _ =>
                Uri_string (Uri_RandFile d (prop_name (i + k)) (seed w + k)))
          arrays.
Proof.
  induction arrays as [|a rest IH]; intros i w w' infos; simpl.
  - unfold ret. intros [= <- <-]. split_and!; try done; try lia.
    exists []. by rewrite app_nil_r.
  - unfold bind at 1.
    destruct (StoreArrowArrayAtName a d (prop_name i) w)
      as [[stored|e|] w1] eqn:Hstore; try discriminate.
    apply StoreArrowArrayAtName_success in Hstore as (buffer & Hb & -> & ->).
    unfold bind at 1.
    destruct (WritePartArrays_loop prop_name d (S i) rest _)
      as [[more|e|] w2] eqn:Hrest; try discriminate.
    apply IH in Hrest as (-> & Hseed & news & Hdesc & Hpaths).
    unfold ret. intros [= <- <-]. simpl in *.
    split_and!; [|lia|].
    + unfold part_entry. rewrite !Nat.add_0_r. f_equal.
      apply imap_ext. intros k x _. simpl.
      by rewrite <- !Nat.add_succ_comm.
    + eexists (_ :: news). rewrite Hdesc, <- app_assoc. split; [done|].
      simpl. rewrite !Nat.add_0_r, Hpaths. f_equal.
      apply imap_ext. intros k x _. simpl.
      by rewrite <- !Nat.add_succ_comm.
Qed.

Lemma imap_imap {A B C} (f : nat -> B -> C) (g : nat -> A -> B) (l : list A) :
  imap f (imap g l) = imap (fun k x => f k (g k x)) l.
Proof.
  revert f g. induction l as [|x l IH]; intros f g; simpl; [done|].
  f_equal. apply IH.
Qed.

Lemma WritePartArrays_success (r : RDG) d (w w' : World) infos :
  WritePartArrays r d w = (Success infos, w') ->
  infos = imap (fun k nm => part_entry d (seed w) nm k) (part_names r) /\
  exists news,
    desc w' = desc w ++ news /\
    map pw_path news
      = imap (fun k nm => Uri_string (Uri_RandFile d nm (seed w + k)))
          (part_names r).
Proof.
  unfold WritePartArrays, part_names. unfold bind at 1.
  destruct (WritePartArrays_loop MirrorPropName d 0 (mirror_nodes_ r) w)
    as [[mirrors|e|] w1] eqn:Hmirrors; try discriminate.
  apply WritePartArrays_loop_success in Hmirrors
    as (-> & Hs1 & n1 & Hd1 & Hp1).
  unfold bind at 1.
  destruct (WritePartArrays_loop MasterPropName d 0 (master_nodes_ r) w1)
    as [[masters|e|] w2] eqn:Hmasters; try discriminate.
  apply WritePartArrays_loop_success in Hmasters
    as (-> & Hs2 & n2 & Hd2 & Hp2).
  cbn [Nat.add] in *.
  set (nm := length (mirror_nodes_ r)) in *.
  set (ns := length (master_nodes_ r)) in *.
  assert (Hmasters :
            imap (fun k (_ : ChunkedArray) =>
                    part_entry d (seed w1) (MasterPropName k) k)
              (master_nodes_ r)
            = imap (fun k (_ : ChunkedArray) =>
                      part_entry d (seed w) (MasterPropName k) (nm + k))
                (master_nodes_ r)).
  { apply imap_ext. intros k x _. simpl. unfold part_entry.
    by rewrite Hs1, Nat.add_assoc. }
  assert (Hpaths :
            imap (fun k (_ : ChunkedArray) =>
                    Uri_string (Uri_RandFile d (MasterPropName k)
                                  (seed w1 + k)))
              (master_nodes_ r)
            = imap (fun k (_ : ChunkedArray) =>
                      Uri_string (Uri_RandFile d (MasterPropName k)
                                    (seed w + (nm + k))))
                (master_nodes_ r)).
  { apply imap_ext. intros k x _. simpl. by rewrite Hs1, Nat.add_assoc. }
  destruct (local_to_global_vector_ r) as [l2g|].
  - unfold bind at 1.
    destruct (StoreArrowArrayAtName l2g d "local_to_global_vector" w2)
      as [[stored|e|] w3] eqn:Hstore; try discriminate.
    apply StoreArrowArrayAtName_success in Hstore as (buffer & Hb & -> & ->).
    unfold ret. intros [= <- <-]. simpl. split.
    + rewrite !imap_app, !imap_imap, !length_imap. simpl.
      rewrite Hmasters, Hs2, Hs1. subst nm ns. unfold part_entry.
      by rewrite Nat.add_0_r, !Nat.add_assoc.
    + eexists (n1 ++ n2 ++ [_]). rewrite Hd2, Hd1, <- !app_assoc.
      split; [done|].
      rewrite !map_app, !imap_app, !imap_imap, !length_imap, Hp1, Hp2, Hpaths.
      simpl. subst nm ns. by rewrite Hs2, Hs1, Nat.add_0_r, !Nat.add_assoc.
  - unfold ret. intros [= <- <-]. split.
    + rewrite app_nil_r, !imap_app, !imap_imap, !length_imap.
      by rewrite Hmasters.
    + exists (n1 ++ n2). rewrite Hd2, Hd1, <- !app_assoc.
      split; [done|].
      rewrite app_nil_r, !map_app, !imap_app, !imap_imap, !length_imap.
      by rewrite Hp1, Hp2, Hpaths.
Qed.

Lemma part_names_length (r : RDG) : length (part_names r) = num_part_arrays r.
Proof.
  unfold part_names, num_part_arrays. rewrite !length_app, !length_imap.
  destruct (local_to_global_vector_ r); simpl; lia.
Qed.

(** X4. A successful [WritePartArrays] returns one entry per array, in the
    order mirror sets, master sets, local-to-global vector, named
    [mirror_nodes_0], [mirror_nodes_1], ..., [master_nodes_0], ... and
    [local_to_global_vector], all marked persistent; the path of the
    [k]-th entry is the base name of the file of the [k]-th write the
    call queued. *)
Theorem WritePartArrays_entries (r : RDG) d (w w' : World) infos :
  WritePartArrays r d w = (Success infos, w') ->
  length infos = num_part_arrays r /\
  map name infos = part_names r /\
  Forall (fun v => persist v = true) infos /\
  exists news,
    desc w' = desc w ++ news /\
    length news = length infos /\
    forall k v, infos !! k = Some v ->
      exists pw,
        news !! k = Some pw /\
        pw_path pw = Uri_string (Uri_RandFile d (name v) (seed w + k)) /\
        path v = Uri_BaseName (Uri_RandFile d (name v) (seed w + k)).
Proof.
  intros Hwrite.
  apply WritePartArrays_success in Hwrite as (-> & news & Hdesc & Hpaths).
  assert (Hlen : length news = length (part_names r)).
  { rewrite <- (length_map pw_path), Hpaths. apply length_imap. }
  split_and!.
  - by rewrite length_imap, part_names_length.
  - rewrite fmap_imap.
    transitivity (imap (const id) (part_names r));
      [by apply imap_ext | by rewrite imap_const, list_fmap_id].
  - apply Forall_forall. intros v Hv.
    apply elem_of_lookup_imap in Hv as (k & nm & -> & _). done.
  - exists news. split_and!; [done | by rewrite length_imap |].
    intros k v Hv. apply list_lookup_imap_Some in Hv as (nm & Hk & ->).
    destruct (news !! k) as [pw|] eqn:Hpw.
    + exists pw. split_and!; [done | | done].
      assert (map pw_path news !! k = Some (pw_path pw)) as Hm
        by (by rewrite list_lookup_fmap, Hpw).
      rewrite Hpaths, list_lookup_imap, Hk in Hm. simpl in Hm.
      by injection Hm as <-.
    + apply lookup_ge_None in Hpw. apply lookup_lt_Some in Hk. lia.
Qed.

Lemma starts_with_append (prefix s : string) :
  starts_with prefix (prefix +:+ s) = true.
Proof.
  unfold starts_with. induction prefix as [|c prefix IH]; simpl.
  - by destruct s.
  - by destruct (Ascii.ascii_dec c c).
Qed.

(** X5. Every name under which [WritePartArrays] stores an array is routed
    by [AddPartitionMetadataArray] back to the slot the array came from:
    the names of mirror sets to the mirror sets, those of master sets to
    the master sets, and the last one to the local-to-global vector. *)
Theorem part_names_route_back (r : RDG) (k : nat) (column_name : string) :
  part_names r !! k = Some column_name ->
  forall col rest r0,
    AddPartitionMetadataArray ((column_name, col) :: rest) r0
      = (Success tt,
         if decide (k < length (mirror_nodes_ r)) then AddMirrorNodes col r0
         else if decide (k < length (mirror_nodes_ r)
                             + length (master_nodes_ r))
              then AddMasterNodes col r0
              else set_local_to_global_vector col r0).
Proof.
  unfold part_names. intros Hk col rest r0.
  unfold AddPartitionMetadataArray. simpl.
  apply lookup_app_Some in Hk as [Hk | [Hge Hk]].
  - apply list_lookup_imap_Some in Hk as (a & Hk & ->).
    apply lookup_lt_Some in Hk. rewrite decide_True by done.
    unfold MirrorPropName. by rewrite starts_with_append.
  - rewrite length_imap in Hge, Hk. rewrite decide_False by lia.
    apply lookup_app_Some in Hk as [Hk | [Hge2 Hk]].
    + apply list_lookup_imap_Some in Hk as (a & Hk & ->).
      apply lookup_lt_Some in Hk. rewrite decide_True by lia.
      unfold MasterPropName.
      rewrite (master_not_mirror _ (starts_with_append _ _)).
      by rewrite starts_with_append.
    + rewrite length_imap in Hge2, Hk. rewrite decide_False by lia.
      destruct (local_to_global_vector_ r); [|by destruct (k - _ - _)].
      apply list_lookup_singleton_Some in Hk as [_ <-]. done.
Qed.

(** ** What a store does before the commit, and what the commit leaves *)

Lemma WritePartArrays_loop_frame prop_name d arrays :
  forall i (w w' : World) res,
  WritePartArrays_loop prop_name d i arrays w = (res, w') ->
  rdg_meta w' = rdg_meta w /\ log w' = log w.
Proof.
  induction arrays as [|a rest IH]; intros i w w' res; simpl.
  - unfold ret. by intros [= <- <-].
  - unfold bind at 1.
    destruct (StoreArrowArrayAtName a d (prop_name i) w)
      as [stored w1] eqn:Hstore.
    apply StoreArrowArrayAtName_frame in Hstore as (Hm1 & Hl1 & _).
    destruct stored as [stored|e|]; try by intros [= <- <-].
    unfold bind at 1.
    destruct (WritePartArrays_loop prop_name d (S i) rest w1)
      as [more w2] eqn:Hrest.
    apply IH in Hrest as (Hm2 & Hl2).
    destruct more as [more|e|]; unfold ret; intros [= <- <-]; split; congruence.
Qed.

Lemma WritePartArrays_frame (r : RDG) d (w w' : World) res :
  WritePartArrays r d w = (res, w') ->
  rdg_meta w' = rdg_meta w /\ log w' = log w.
Proof.
  unfold WritePartArrays. unfold bind at 1.
  destruct (WritePartArrays_loop MirrorPropName d 0 (mirror_nodes_ r) w)
    as [mirrors w1] eqn:Hmirrors.
  apply WritePartArrays_loop_frame in Hmirrors as (Hm1 & Hl1).
  destruct mirrors as [mirrors|e|]; try by intros [= <- <-].
  unfold bind at 1.
  destruct (WritePartArrays_loop MasterPropName d 0 (master_nodes_ r) w1)
    as [masters w2] eqn:Hmasters.
  apply WritePartArrays_loop_frame in Hmasters as (Hm2 & Hl2).
  destruct masters as [masters|e|]; try (intros [= <- <-]; split; congruence).
  destruct (local_to_global_vector_ r) as [l2g|].
  - unfold bind at 1.
    destruct (StoreArrowArrayAtName l2g d "local_to_global_vector" w2)
      as [stored w3] eqn:Hstore.
    apply StoreArrowArrayAtName_frame in Hstore as (Hm3 & Hl3 & _).
    destruct stored as [stored|e|]; unfold ret; intros [= <- <-];
      split; congruence.
  - unfold ret. intros [= <- <-]. split; congruence.
Qed.

Lemma RDGPartHeader_Write_frame (h : RDGPartHeader) (w w' : World) res :
  RDGPartHeader_Write h w = (res, w') ->
  rdg_meta w' = rdg_meta w /\ log w' = log w /\
  (is_ok res = false -> w' = w).
Proof.
  unfold RDGPartHeader_Write, StartStore. unfold_monad.
  destruct (RDGPartHeader_serialize h w) as [out|e|]; intros [= <- <-];
    simpl; split_and!; done.
Qed.

(** A successful [CommitRDG] has seen the queued writes succeed, and
    leaves the handle at the next version. *)
Lemma CommitRDG_success policy transp lin (w w' : World) :
  CommitRDG policy transp lin w = (Success tt, w') ->
  WriteGroup_Finish w = Success tt /\
  rdg_meta w' = NextVersion (rdg_meta w) Comm_Num policy transp lin.
Proof.
  unfold CommitRDG, Finish, Barrier, Update. unfold_monad.
  destruct (WriteGroup_Finish w) as [[]|e|]; try discriminate.
  destruct (NS_Update _ _ _ _) as [[]|e|]; try discriminate;
    (destruct (OneHostOnly _ _) as [[[]|e'|] w2]; simpl; try discriminate);
    intros [= <-]; done.
Qed.

Lemma CommitRDG_finish_fails policy transp lin (w : World) e :
  WriteGroup_Finish w = Failure e ->
  CommitRDG policy transp lin w
    = (Failure e, set_desc [] (emit (EvFinish (desc w)) w)).
Proof.
  intros Hfinish. unfold CommitRDG, Finish. unfold_monad. by rewrite Hfinish.
Qed.

Lemma DoStore_topology_world (st : RDG * World) :
  exists st0,
    DoStore_topology st = (Success tt, st0) /\
    log (snd st0) = log (snd st) /\
    rdg_meta (snd st0) = rdg_meta (snd st) /\
    lineage_ (fst st0) = lineage_ (fst st) /\
    metadata (header_of st0) = metadata (header_of st).
Proof.
  destruct st as [r w]. unfold DoStore_topology, RandFile, StartStore.
  unfold_monad. unfold header_of. simpl.
  destruct (empty (topology_path (part_header (core_ r))));
    eexists; (split; [reflexivity|]); simpl; split_and!; reflexivity.
Qed.

Local Opaque WriteTable WritePartArrays CommitRDG RDGPartHeader_Write.

Lemma DoStore_shape command_line (st st' : RDG * World) res :
  DoStore command_line st = (res, st') ->
  let policy := policy_id_ (metadata (header_of st)) in
  let transp := transposed_ (metadata (header_of st)) in
  let lin := AddCommandLine command_line (lineage_ (fst st)) in
  (is_ok res = false /\
   log (snd st') = log (snd st) /\
   rdg_meta (snd st') = rdg_meta (snd st) /\
   lineage_ (fst st') = lineage_ (fst st)) \/
  (exists wc,
     log wc = log (snd st) /\
     rdg_meta wc = rdg_meta (snd st) /\
     lineage_ (fst st') = lin /\
     CommitRDG policy transp lin wc = (res, snd st')).
Proof.
  intros Hrun policy transp lin. subst policy transp lin. revert Hrun.
  destruct (DoStore_topology_world st)
    as (st0 & Htopo & Hlog & Hmeta & Hlin & Hmd).
  unfold DoStore. unfold bind at 1. rewrite Htopo. unfold_monad.
  unfold header_of in *. simpl in *.
  destruct (WriteTable (node_table _) _ _ _) as [nodes wa] eqn:Hnode.
  apply WriteTable_frame in Hnode as (Hma & Hla & _).
  destruct nodes as [nodes|e|]; simpl;
    try (intros [= <- <-]; left; simpl; split_and!; congruence).
  destruct (WriteTable (edge_table _) _ _ _) as [edges wb] eqn:Hedge.
  apply WriteTable_frame in Hedge as (Hmb & Hlb & _).
  destruct edges as [edges|e|]; simpl;
    try (intros [= <- <-]; left; simpl; split_and!; congruence).
  destruct (WritePartArrays _ _ _) as [parts wc] eqn:Hpart.
  apply WritePartArrays_frame in Hpart as (Hmc & Hlc).
  destruct parts as [parts|e|]; simpl;
    try (intros [= <- <-]; left; simpl; split_and!; congruence).
  destruct (RDGPartHeader_Write _ _) as [written wd] eqn:Hwrite.
  apply RDGPartHeader_Write_frame in Hwrite as (Hmd' & Hld & _).
  destruct written as [[]|e|]; simpl;
    try (intros [= <- <-]; left; simpl; split_and!; congruence).
  destruct (CommitRDG _ _ _ _) as [committed we] eqn:Hcommit.
  intros [= <- <-]. right. exists wd. simpl.
  rewrite <- Hmd, <- Hlin. split_and!; try congruence.
Qed.

(** X6. Whatever [DoStore] returns, it either failed before the commit, in
    which case it made no event, the handle's cached metadata is as before
    and the RDG's lineage too; or it ran [CommitRDG], from a world with the
    same events and metadata, with the policy of the header and with the
    lineage extended by the command line, which the RDG keeps however the
    commit ends. *)
Theorem DoStore_commits_last command_line (st st' : RDG * World) res :
  DoStore command_line st = (res, st') ->
  let policy := policy_id_ (metadata (header_of st)) in
  let transp := transposed_ (metadata (header_of st)) in
  let lin := AddCommandLine command_line (lineage_ (fst st)) in
  (is_ok res = false /\
   log (snd st') = log (snd st) /\
   rdg_meta (snd st') = rdg_meta (snd st) /\
   lineage_ (fst st') = lineage_ (fst st)) \/
  (exists wc,
     log wc = log (snd st) /\
     rdg_meta wc = rdg_meta (snd st) /\
     lineage_ (fst st') = lin /\
     CommitRDG policy transp lin wc = (res, snd st')).
Proof. apply DoStore_shape. Qed.

(** X7. After a successful [DoStore] the handle's cached metadata is the
    next version of what it was, for the current number of hosts, the
    policy and the transposition of the header, and the lineage of the RDG,
    which is the one before the call with the command line at its end. *)
Theorem DoStore_success_advances command_line (st st' : RDG * World) :
  DoStore command_line st = (Success tt, st') ->
  lineage_ (fst st') = lineage_ (fst st) ++ [command_line] /\
  rdg_meta (snd st')
    = NextVersion (rdg_meta (snd st)) Comm_Num
        (policy_id_ (metadata (header_of st)))
        (transposed_ (metadata (header_of st)))
        (lineage_ (fst st) ++ [command_line]).
Proof.
  intros Hrun.
  apply DoStore_shape in Hrun
    as [(Hfail & _) | (wc & _ & Hmeta & Hlin & Hcommit)]; [discriminate|].
  apply CommitRDG_success in Hcommit as (_ & Hnext).
  split; [done|]. by rewrite Hnext, Hmeta.
Qed.

(** X8. When both tables, the partition-boundary arrays and the header are
    queued and [WriteGroup::Finish] then reports a failed write, [DoStore]
    returns that failure and the handle's cached metadata is as before;
    the RDG's header already holds the three lists the writes returned,
    and its lineage the command line. *)
Theorem DoStore_finish_failure command_line (st : RDG * World)
    nodes w1 edges w2 parts w3 w4 e :
  let st0 := snd (DoStore_topology st) in
  let core := core_ (fst st) in
  let d := dir (rdg_meta (snd st)) in
  WriteTable (node_table core) (node_prop_info_list (part_header core)) d
    (snd st0) = (Success nodes, w1) ->
  WriteTable (edge_table core) (edge_prop_info_list (part_header core)) d w1
    = (Success edges, w2) ->
  WritePartArrays (fst st0) d w2 = (Success parts, w3) ->
  RDGPartHeader_Write
    (set_part_properties parts
       (set_edge_prop_info_list edges
          (set_node_prop_info_list nodes (header_of st0)))) w3
    = (Success tt, w4) ->
  WriteGroup_Finish w4 = Failure e ->
  exists rdg' w5,
    DoStore command_line st = (Failure e, (rdg', w5)) /\
    rdg_meta w5 = rdg_meta (snd st) /\
    node_prop_info_list (part_header (core_ rdg')) = nodes /\
    edge_prop_info_list (part_header (core_ rdg')) = edges /\
    part_prop_info_list (part_header (core_ rdg')) = parts /\
    lineage_ rdg' = lineage_ (fst st) ++ [command_line].
Proof.
  intros st0 core d Hnode Hedge Hpart Hwrite Hfinish. subst st0 core d.
  destruct (DoStore_topology_frame st)
    as (st0 & Htopo & Hn & He & Hp & Hnt & Het & Hmi & Hma & Hl2g & _ & Hmeta).
  destruct (DoStore_topology_world st) as (st0' & Htopo' & _ & _ & Hlin & _).
  rewrite Htopo in Htopo'. injection Htopo' as <-.
  unfold DoStore. unfold bind at 1. rewrite Htopo in *. unfold_monad.
  unfold header_of in *. simpl in *.
  rewrite Hnt, Hn, Hmeta, Hnode. simpl.
  rewrite Het, He, Hedge. simpl.
  erewrite WritePartArrays_fields; [rewrite Hpart | done..]. simpl.
  rewrite Hwrite. simpl.
  rewrite (CommitRDG_finish_fails _ _ _ _ e Hfinish). simpl.
  apply RDGPartHeader_Write_frame in Hwrite as (Hm4 & _).
  apply WritePartArrays_frame in Hpart as (Hm3 & _).
  apply WriteTable_frame in Hedge as (Hm2 & _).
  apply WriteTable_frame in Hnode as (Hm1 & _).
  eexists _, _. split; [reflexivity|]. simpl.
  split_and!; try done; [congruence | by rewrite Hlin].
Qed.

(** X9. File base names being non-empty, the first block of [DoStore]
    leaves a header with a topology path, and does nothing when run again:
    the topology file is created once. *)
Theorem DoStore_topology_once (st : RDG * World) :
  (forall u prefix sd, Uri_BaseName (Uri_RandFile u prefix sd) <> "") ->
  let st0 := snd (DoStore_topology st) in
  topology_path (header_of st0) <> "" /\
  DoStore_topology st0 = (Success tt, st0).
Proof.
  intros Hbn. destruct st as [r w].
  unfold DoStore_topology, RandFile, StartStore. unfold_monad.
  unfold header_of. simpl.
  destruct (empty (topology_path (part_header (core_ r)))) eqn:Hempty; simpl.
  - assert (Hne : empty (Uri_BaseName
                    (Uri_RandFile (dir (rdg_meta w)) "topology" (seed w)))
                  = false).
    { unfold empty. destruct (String.eqb_spec
        (Uri_BaseName (Uri_RandFile (dir (rdg_meta w)) "topology" (seed w)))
        ""); [by apply Hbn in e | done]. }
    split; [apply Hbn|]. by rewrite Hne.
  - rewrite Hempty. split; [|done].
    unfold empty in Hempty. intros Heq. by rewrite Heq in Hempty.
Qed.

(** ** Load, step by step *)

(** The reads [AddTables] causes for a list of properties. *)
Lemma AddTables_run uri properties add_fn :
  forall (st st' : RDG * World) res,
  AddTables uri properties add_fn st = (res, st') ->
  exists k,
    k <= length properties /\
    log (snd st')
      = log (snd st) ++ load_events uri (take k properties) /\
    (res = Success tt -> k = length properties) /\
    (is_ok res = false -> 1 <= k).
Proof.
  induction properties as [|v rest IH]; intros [r w] st' res; simpl.
  - unfold ret. intros [= <- <-]. exists 0. simpl.
    rewrite app_nil_r. split_and!; done.
  - unfold_monad. unfold LoadTable_call.
    destruct (LoadTable _ _ w) as [table|e|]; simpl;
      try (intros [= <- <-]; exists 1; simpl; rewrite ?take_0;
           split_and!; (done || lia)).
    destruct (add_fn table r) as [[[]|e|] r1]; simpl;
      try (intros [= <- <-]; exists 1; simpl; rewrite ?take_0;
           split_and!; (done || lia)).
    intros Hrest. apply IH in Hrest as (k & Hk & Hlog & Hok & Hfail).
    exists (S k). simpl in *. rewrite Hlog, <- app_assoc. simpl.
    split_and!; try done; try lia. intros Hres. by rewrite Hok.
Qed.

Lemma AddTables_preserves (I : RDG -> Prop) uri properties add_fn :
  (forall table r res r', I r -> add_fn table r = (res, r') -> I r') ->
  forall (st st' : RDG * World) res,
  I (fst st) -> AddTables uri properties add_fn st = (res, st') -> I (fst st').
Proof.
  intros Hadd.
  induction properties as [|v rest IH]; intros [r w] st' res HI; simpl.
  - unfold ret. by intros [= <- <-].
  - unfold_monad. unfold LoadTable_call.
    destruct (LoadTable _ _ w) as [table|e|]; simpl;
      try by intros [= <- <-].
    destruct (add_fn table r) as [added r1] eqn:Hfn.
    apply (Hadd table r added r1 HI) in Hfn.
    destruct added as [[]|e|]; simpl; try by intros [= <- <-].
    by apply IH.
Qed.

Lemma core_AddNodeProperties_keeps h d table (r : RDG) res (r' : RDG) :
  keeps_header h d r -> core_AddNodeProperties table r = (res, r') ->
  keeps_header h d r'.
Proof.
  unfold core_AddNodeProperties, keeps_header.
  destruct (RDGCore_AddProperties _ table); by intros HI [= <- <-].
Qed.

Lemma core_AddEdgeProperties_keeps h d table (r : RDG) res (r' : RDG) :
  keeps_header h d r -> core_AddEdgeProperties table r = (res, r') ->
  keeps_header h d r'.
Proof.
  unfold core_AddEdgeProperties, keeps_header.
  destruct (RDGCore_AddProperties _ table); by intros HI [= <- <-].
Qed.

Lemma AddPartitionMetadataArray_keeps h d table (r : RDG) res (r' : RDG) :
  keeps_header h d r -> AddPartitionMetadataArray table r = (res, r') ->
  keeps_header h d r'.
Proof.
  unfold AddPartitionMetadataArray, keeps_header.
  destruct (table !! 0) as [[field_name col]|];
    [|by unfold fatal; intros HI [= <- <-]].
  destruct (starts_with "mirror_nodes" field_name);
    [|destruct (starts_with "master_nodes" field_name);
      [|destruct (String.eqb field_name "local_to_global_vector")]];
    unfold_monad; by intros HI [= <- <-].
Qed.

(** [DoMake], step by step. *)
Lemma DoMake_run metadata_dir (st st' : RDG * World) res :
  DoMake metadata_dir st = (res, st') ->
  let h := header_of st in
  part_header (core_ (fst st')) = h /\
  (is_ok res = false -> rdg_dir_ (fst st') = rdg_dir_ (fst st)) /\
  (res = Success tt ->
   rdg_dir_ (fst st') = Some metadata_dir /\
   log (snd st')
     = log (snd st)
       ++ load_events metadata_dir (node_prop_info_list h)
       ++ load_events metadata_dir (edge_prop_info_list h)
       ++ load_events metadata_dir (part_prop_info_list h)
       ++ [EvBindTopology
             (Uri_string (Uri_Join metadata_dir (topology_path h)))]).
Proof.
  intros Hrun h. subst h. revert Hrun. unfold DoMake.
  set (h := header_of st). set (d := rdg_dir_ (fst st)).
  assert (HI : keeps_header h d (fst st)) by done.
  destruct (AddTables metadata_dir (node_prop_info_list h)
              core_AddNodeProperties st) as [node_result st1] eqn:Hnode.
  pose proof (AddTables_preserves (keeps_header h d) _ _ _
                (core_AddNodeProperties_keeps h d) _ _ _ HI Hnode) as HI1.
  apply AddTables_run in Hnode as (k1 & _ & Hlog1 & Hok1 & _).
  destruct node_result as [[]|e|]; simpl;
    try (intros [= <- <-]; destruct HI1; split_and!; done).
  rewrite Hok1, firstn_all in Hlog1 by done.
  assert (Hh1 : header_of st1 = h) by apply HI1. rewrite Hh1.
  destruct (AddTables metadata_dir (edge_prop_info_list h)
              core_AddEdgeProperties st1) as [edge_result st2] eqn:Hedge.
  pose proof (AddTables_preserves (keeps_header h d) _ _ _
                (core_AddEdgeProperties_keeps h d) _ _ _ HI1 Hedge) as HI2.
  apply AddTables_run in Hedge as (k2 & _ & Hlog2 & Hok2 & _).
  destruct edge_result as [[]|e|]; simpl;
    try (intros [= <- <-]; destruct HI2; split_and!; done).
  rewrite Hok2, firstn_all in Hlog2 by done.
  assert (Hh2 : header_of st2 = h) by apply HI2. rewrite Hh2.
  assert (Hfinish : forall st3,
            keeps_header h d (fst st3) ->
            log (snd st3)
              = log (snd st)
                ++ load_events metadata_dir (node_prop_info_list h)
                ++ load_events metadata_dir (edge_prop_info_list h)
                ++ load_events metadata_dir (part_prop_info_list h) ->
            (let* t_path :=
               gets (fun s => Uri_Join metadata_dir
                                (topology_path (header_of s))) in
             let* _ := Bind_topology (Uri_string t_path) in
             on_fst (modify (set_rdg_dir metadata_dir))) st3 = (res, st') ->
            part_header (core_ (fst st')) = h /\
            (is_ok res = false -> rdg_dir_ (fst st') = d) /\
            (res = Success tt ->
             rdg_dir_ (fst st') = Some metadata_dir /\
             log (snd st')
               = log (snd st)
                 ++ load_events metadata_dir (node_prop_info_list h)
                 ++ load_events metadata_dir (edge_prop_info_list h)
                 ++ load_events metadata_dir (part_prop_info_list h)
                 ++ [EvBindTopology
                       (Uri_string
                          (Uri_Join metadata_dir (topology_path h)))])).
  { intros [r3 w3] [Hh3 Hd3] Hlog3. unfold Bind_topology. unfold_monad.
    unfold header_of. simpl in *. rewrite Hh3.
    destruct (FileView_Bind _ w3); intros [= <- <-]; simpl;
      split_and!; try done.
    intros _. split; [done|]. rewrite Hlog3, <- !app_assoc. done. }
  destruct (part_prop_info_list h) as [|v parts] eqn:Hparts.
  - apply Hfinish; [done|]. rewrite Hlog2, Hlog1, <- !app_assoc.
    unfold load_events at 3. simpl. by rewrite app_nil_r.
  - destruct (AddTables metadata_dir (v :: parts)
                AddPartitionMetadataArray st2) as [part_result st3] eqn:Hpart.
    pose proof (AddTables_preserves (keeps_header h d) _ _ _
                  (AddPartitionMetadataArray_keeps h d) _ _ _ HI2 Hpart)
      as HI3.
    apply AddTables_run in Hpart as (k3 & _ & Hlog3 & Hok3 & _).
    destruct part_result as [[]|e|]; simpl;
      try (intros [= <- <-]; destruct HI3; split_and!; done).
    rewrite Hok3, firstn_all in Hlog3 by done.
    apply Hfinish; [done|]. by rewrite Hlog3, Hlog2, Hlog1, <- !app_assoc.
Qed.

(** X10. [DoMake] never changes the part header, and binds the RDG to the
    directory exactly when it succeeds; a successful load has read the
    node columns, then the edge columns, then the partition-boundary
    columns, each list in header order, and bound the topology file
    last. *)
Theorem DoMake_reads_then_binds metadata_dir (st st' : RDG * World) res :
  DoMake metadata_dir st = (res, st') ->
  let h := header_of st in
  part_header (core_ (fst st')) = h /\
  (is_ok res = false -> rdg_dir_ (fst st') = rdg_dir_ (fst st)) /\
  (res = Success tt ->
   rdg_dir_ (fst st') = Some metadata_dir /\
   log (snd st')
     = log (snd st)
       ++ load_events metadata_dir (node_prop_info_list h)
       ++ load_events metadata_dir (edge_prop_info_list h)
       ++ load_events metadata_dir (part_prop_info_list h)
       ++ [EvBindTopology
             (Uri_string (Uri_Join metadata_dir (topology_path h)))]).
Proof. apply DoMake_run. Qed.

(** X11. Past the host-count check, [RDG::Make] returns the failure of
    the header read, or of the pruning, having read nothing but the
    header; an RDG it returns is bound to the directory of the metadata and
    carries the pruned header. *)
Theorem Make_load_outcomes (meta : RDGMeta)
    (node_props edge_props : option (list string)) (w : World) :
  RDGMeta_IsEmptyRDG meta = true \/ num_hosts meta = Comm_Num ->
  let file := RDGMeta_PartitionFileName meta Comm_ID in
  (forall e, RDGPartHeader_Make file w = Failure e ->
     Make meta node_props edge_props w
       = (Failure e, emit (EvReadHeader file) w)) /\
  (forall header e,
     RDGPartHeader_Make file w = Success header ->
     RDGPartHeader_PrunePropsTo node_props edge_props header = Failure e ->
     Make meta node_props edge_props w
       = (Failure e, emit (EvReadHeader file) w)) /\
  (forall rdg w',
     Make meta node_props edge_props w = (Success rdg, w') ->
     rdg_dir_ rdg = Some (dir meta) /\
     exists header,
       RDGPartHeader_Make file w = Success header /\
       RDGPartHeader_PrunePropsTo node_props edge_props header
         = Success (part_header (core_ rdg))).
Proof.
  intros Hpass file.
  assert (Hcheck : negb (RDGMeta_IsEmptyRDG meta) && host_count_differs meta
                   = false).
  { unfold host_count_differs. destruct Hpass as [-> | ->]; [done|].
    rewrite N.eqb_refl. apply andb_false_r. }
  unfold Make. rewrite Hcheck.
  unfold Make_load, RDGPartHeader_Make_call. unfold_monad. fold file.
  split_and!.
  - by intros e ->.
  - by intros header e -> ->.
  - intros rdg w'.
    destruct (RDGPartHeader_Make file w) as [header|e|]; try discriminate.
    destruct (RDGPartHeader_PrunePropsTo node_props edge_props header)
      as [pruned|e|] eqn:Hprune; try discriminate.
    destruct (DoMake (dir meta) (RDG_of_header pruned, emit (EvReadHeader file) w))
      as [[[]|e|] [r1 w1]] eqn:Hmake; try discriminate.
    intros [= <- <-].
    apply DoMake_run in Hmake as (Hh & _ & Hok).
    destruct (Hok eq_refl) as [Hdir _]. simpl in Hh, Hdir.
    split; [done|]. exists header. split; [done|]. by rewrite Hh.
Qed.

End Further.

(** ** The further properties on the concrete platform *)

Lemma StoreArrowArrayAtName_failure_witness :
  let Sv := ex_ok in
  let w := ex_world 3 in
  let w' := snd (StoreArrowArrayAtName [2%Z] ["graph"] "bad" w) in
  StoreArrowArrayAtName [2%Z] ["graph"] "bad" w = (Failure ArrowError, w') /\
  desc w' = desc w /\ seed w' = S (seed w) /\
  rdg_meta w' = rdg_meta w /\ log w' = log w /\
  (FileFrame_Init (set_seed (S (seed w)) w) = Failure ArrowError \/
   ArrowError = ArrowError /\
   (parquet_WriteTable "bad" [2%Z] = ParquetNotOk \/
    parquet_WriteTable "bad" [2%Z] = ParquetThrows)).
Proof.
  intros Sv w w'. split; [reflexivity|].
  apply (StoreArrowArrayAtName_failure (Sv := Sv) [2%Z] ["graph"] "bad" w w').
  reflexivity.
Defined.


Lemma WriteTable_returns_witness :
  let Sv := ex_ok in
  let table : Table := [("age", [41%Z])] in
  let properties := [mkPropStorageInfo "age" "" true] in
  exists next_properties w',
    WriteTable table properties ["graph"] (ex_world 3)
      = (Success next_properties, w').
Proof.
  intros Sv table properties.
  apply (WriteTable_returns (Sv := Sv) table properties ["graph"] (ex_world 3)).
  - intros w0. reflexivity.
  - intros [|j] v Hj Hv; [|by destruct j].
    injection Hj as <-. exists "age", [41%Z], [41%Z]. split; reflexivity.
Defined.

Lemma WritePartArrays_entries_witness :
  let Sv := ex_ok in
  let w := ex_world 3 in
  let infos :=
    [mkPropStorageInfo "mirror_nodes_0" "mirror_nodes_0-0" true;
     mkPropStorageInfo "master_nodes_0" "master_nodes_0-1" true;
     mkPropStorageInfo "local_to_global_vector" "local_to_global_vector-2"
       true] in
  let w' := snd (WritePartArrays ex_partitioned ["graph"] w) in
  WritePartArrays ex_partitioned ["graph"] w = (Success infos, w') /\
  length infos = num_part_arrays ex_partitioned /\
  map name infos = part_names ex_partitioned /\
  Forall (fun v => persist v = true) infos /\
  exists news,
    desc w' = desc w ++ news /\
    length news = length infos /\
    forall k v, infos !! k = Some v ->
      exists pw,
        news !! k = Some pw /\
        pw_path pw = Uri_string (Uri_RandFile ["graph"] (name v) (seed w + k)) /\
        path v = Uri_BaseName (Uri_RandFile ["graph"] (name v) (seed w + k)).
Proof.
  intros Sv w infos w'. split; [vm_compute; reflexivity|].
  apply (WritePartArrays_entries (Sv := Sv) ex_partitioned ["graph"] w w' infos).
  vm_compute; reflexivity.
Defined.

Lemma part_names_route_back_witness :
  part_names ex_partitioned !! 1 = Some "master_nodes_0" /\
  AddPartitionMetadataArray [("master_nodes_0", [6%Z])] ex_partitioned
    = (Success tt, AddMasterNodes [6%Z] ex_partitioned).
Proof.
  split; [reflexivity|].
  apply (part_names_route_back ex_partitioned 1 "master_nodes_0" eq_refl
           [6%Z] [] ex_partitioned).
Defined.

Lemma DoStore_commits_last_witness :
  let Sv := ex_ok in
  let rdg :=
    ex_rdg [("age", [41%Z])] [("bad", [2%Z])]
      (ex_header [mkPropStorageInfo "age" "" true]
         [mkPropStorageInfo "bad" "" true] [] "") [] in
  let st := (rdg, ex_world 3) in
  let st' := snd (DoStore "first" st) in
  DoStore "first" st = (Failure ArrowError, st') /\
  log (snd st') = log (snd st) /\
  rdg_meta (snd st') = rdg_meta (snd st) /\
  lineage_ (fst st') = lineage_ (fst st).
Proof.
  intros Sv rdg st st'.
  assert (Hrun : DoStore "first" st = (Failure ArrowError, st'))
    by (vm_compute; reflexivity).
  split; [exact Hrun|].
  destruct (DoStore_commits_last (Sv := Sv) "first" st st'
              (Failure ArrowError) Hrun) as [(_ & H) | _]; [exact H|].
  split_and!; vm_compute; reflexivity.
Defined.

Lemma DoStore_success_advances_witness :
  let Sv := ex_ok in
  let rdg :=
    ex_rdg [("age", [41%Z])] []
      (ex_header [mkPropStorageInfo "age" "" true] [] [] "") [] in
  let st := (rdg, ex_world 3) in
  let st' := snd (DoStore "first" st) in
  DoStore "first" st = (Success tt, st') /\
  lineage_ (fst st') = lineage_ (fst st) ++ ["first"] /\
  rdg_meta (snd st')
    = NextVersion (rdg_meta (snd st)) Comm_Num
        (policy_id_ (metadata (header_of st)))
        (transposed_ (metadata (header_of st)))
        (lineage_ (fst st) ++ ["first"]).
Proof.
  intros Sv rdg st st'. split; [vm_compute; reflexivity|].
  apply (DoStore_success_advances (Sv := Sv) "first" st st').
  vm_compute; reflexivity.
Defined.

Lemma DoStore_finish_failure_witness :
  let Sv := ex_services (Failure (OtherError 5)) (Success tt)
              (ex_header [] [] [] "") in
  let rdg :=
    ex_rdg [("age", [41%Z])] []
      (ex_header [mkPropStorageInfo "age" "" true] [] [] "") [[5%Z]] in
  let st := (rdg, ex_world 3) in
  let nodes := [mkPropStorageInfo "age" "age-1" true] in
  let parts := [mkPropStorageInfo "mirror_nodes_0" "mirror_nodes_0-2" true] in
  exists rdg' w5,
    DoStore "first" st = (Failure (OtherError 5), (rdg', w5)) /\
    rdg_meta w5 = rdg_meta (snd st) /\
    node_prop_info_list (part_header (core_ rdg')) = nodes /\
    edge_prop_info_list (part_header (core_ rdg')) = [] /\
    part_prop_info_list (part_header (core_ rdg')) = parts /\
    lineage_ rdg' = lineage_ (fst st) ++ ["first"].
Proof.
  intros Sv rdg st nodes parts.
  set (st0 := snd (DoStore_topology st)).
  set (w1 := snd (WriteTable (node_table (core_ rdg))
                    (node_prop_info_list (part_header (core_ rdg)))
                    ["graph"] (snd st0))).
  set (w3 := snd (WritePartArrays (fst st0) ["graph"] w1)).
  set (w4 := snd (RDGPartHeader_Write
                    (set_part_properties parts
                       (set_edge_prop_info_list []
                          (set_node_prop_info_list nodes (header_of st0))))
                    w3)).
  apply (DoStore_finish_failure (Sv := Sv) "first" st nodes w1 [] w1 parts
           w3 w4 (OtherError 5)); vm_compute; reflexivity.
Defined.

Lemma DoStore_topology_once_witness :
  let st := (ex_rdg [] [] (ex_header [] [] [] "") [], ex_world 3) in
  let st0 := snd (DoStore_topology st) in
  topology_path (header_of st0) <> "" /\
  DoStore_topology st0 = (Success tt, st0).
Proof.
  intros st st0.
  apply (DoStore_topology_once st). exact ex_BaseName_nonempty.
Defined.

Lemma DoMake_reads_then_binds_witness :
  let h :=
    ex_header [mkPropStorageInfo "age" "f0" true]
      [mkPropStorageInfo "weight" "f1" true]
      [mkPropStorageInfo "mirror_nodes_0" "f2" true] "topo" in
  let Sv := ex_ok in
  let st := (RDG_of_header h, ex_world 3) in
  let st' := snd (DoMake ["graph"] st) in
  DoMake ["graph"] st = (Success tt, st') /\
  part_header (core_ (fst st')) = h /\
  rdg_dir_ (fst st') = Some ["graph"] /\
  log (snd st')
    = [EvLoadTable "age" ["graph"; "f0"];
       EvLoadTable "weight" ["graph"; "f1"];
       EvLoadTable "mirror_nodes_0" ["graph"; "f2"];
       EvBindTopology "graph/topo"].
Proof.
  intros h Sv st st'.
  assert (Hrun : DoMake ["graph"] st = (Success tt, st'))
    by (vm_compute; reflexivity).
  split; [exact Hrun|].
  destruct (DoMake_reads_then_binds (Sv := Sv) ["graph"] st st' (Success tt)
              Hrun) as (Hh & _ & Hok).
  destruct (Hok eq_refl) as [Hdir Hlog].
  split_and!; [exact Hh | exact Hdir |].
  rewrite Hlog. vm_compute; reflexivity.
Defined.

Lemma Make_load_outcomes_witness :
  let h := ex_header [mkPropStorageInfo "age" "f0" true] [] [] "topo" in
  let Sv := ex_services (Success tt) (Success tt) h in
  let result := Make (ex_meta 3 1) None None (ex_world 3) in
  (RDGMeta_IsEmptyRDG (ex_meta 3 1) = true \/ num_hosts (ex_meta 3 1) = Comm_Num) /\
  fst result = Success (fst (snd (DoMake ["graph"]
                  (RDG_of_header h, emit (EvReadHeader ["graph"; "part_0"])
                                      (ex_world 3))))) /\
  forall rdg w',
    result = (Success rdg, w') ->
    rdg_dir_ rdg = Some ["graph"] /\
    exists header,
      RDGPartHeader_Make ["graph"; "part_0"] (ex_world 3) = Success header /\
      RDGPartHeader_PrunePropsTo None None header
        = Success (part_header (core_ rdg)).
Proof.
  intros h Sv result.
  split; [right; reflexivity|]. split; [vm_compute; reflexivity|].
  apply (Make_load_outcomes (Sv := Sv) (ex_meta 3 1) None None (ex_world 3)).
  right; reflexivity.
Defined.
